(** * position_steps: discrete position steps logged to a CSV file

    A shallow embedding of [position_steps.py].  The script drives one
    motor controller through a staircase of position setpoints and logs
    one CSV row per command.

    Conventions of the embedding.

    - Python floats are modelled as rationals ([Q]) with exact arithmetic:
      every binary64 value is a rational, division by [2.0] and
      [math.floor] are exact, and the final division by the integer [6]
      is taken unrounded; its rounded value is given separately, by
      [desired_position_binary64].  Numeric equality is [==] ([Qeq]).
    - [math.floor] returns a Python [int], modelled as [Z].
    - Everything outside the script (command line, clock, device, file
      system, console) is an environment [Env] consulted by the primitive
      operations; a run threads a [World] that records what was done.
    - Exceptions are values of [Exn]; a computation either returns, raises
      or, for the unbounded [while True], runs out of fuel. *)

From Stdlib Require Import Ascii String QArith Qround Lqa.
From stdpp Require Import base strings list gmap.

Local Open Scope Q_scope.
Local Open Scope string_scope.
Local Open Scope list_scope.

(** ** The step parameters and the setpoint formula *)

(** [STEP_TIME_S = 2.0] *)
Definition STEP_TIME_S : Q := 2.

(** [STEP_DIVISIONS = 6] *)
Definition STEP_DIVISIONS : Z := 6.

(** [STEP_TIME_S * (STEP_DIVISIONS + 1)]: the integer sum is formed first
    and then promoted to a float by the product. *)
Definition stop_threshold : Q := STEP_TIME_S * inject_Z (STEP_DIVISIONS + 1).

(** The guard [offset_s > STEP_TIME_S * (STEP_DIVISIONS + 1)]. *)
Definition stop_after (offset_s : Q) : bool :=
  negb (Qle_bool offset_s stop_threshold).

(** [math.floor(offset_s / STEP_TIME_S)] *)
Definition step_index (offset_s : Q) : Z := Qfloor (offset_s / STEP_TIME_S).

(** [math.floor(offset_s / STEP_TIME_S) / STEP_DIVISIONS] *)
Definition desired_position (offset_s : Q) : Q :=
  inject_Z (step_index offset_s) / inject_Z STEP_DIVISIONS.

(** ** Values, exceptions, events *)

(** A CSV cell before it is rendered as text. *)
Inductive Cell : Type :=
| CStr (s : string)
| CFloat (q : Q)
| CInt (z : Z).

(** The exceptions that can reach [main]. *)
Inductive Exn : Type :=
| SystemExit (code : Z)          (* raised by argparse: 0 after help, 2 on usage errors *)
| AttributeError (name : string)
| ValueError (msg : string)
| OSError (errno : Z)            (* file and console I/O *)
| RuntimeError (msg : string).   (* device transport *)

(** The commands of [moteus.Controller] the script uses. *)
Inductive Command : Type :=
| SetStop
| SetRezero
| SetPosition (position accel_limit velocity_limit : Q) (query : bool).

(** The registers read back from the reply of a query:
    [state.values[moteus.Register.X]] for the five registers below. *)
Record Telemetry : Type := {
  POSITION : Q;
  VELOCITY : Q;
  TORQUE : Q;
  MODE : Z;
  FAULT : Z
}.

(** What is sent to the console: the bare [print()] and the status line,
    kept as the values that are formatted into it. *)
Inductive Console : Type :=
| Newline
| Status (offset_s desired_position position velocity torque : Q).

(** The externally visible actions of a run. *)
Inductive Event : Type :=
| EvOpen (path mode : string)
| EvWrite (row : list Cell)
| EvCommand (c : Command)
| EvPrint (p : Console)
| EvSleep (seconds : Q)
| EvRaised (e : Exn).

(** ** Environment and world *)

Record Env : Type := {
  env_argv : list string;          (* [sys.argv[1:]] *)
  env_clock : nat -> Q;            (* the n-th result of [time.time()] *)
  env_fault : nat -> option Exn;   (* the exception, if any, raised by the n-th external operation *)
  env_telemetry : nat -> Telemetry (* the reply when the n-th external operation is a query *)
}.

Record World : Type := {
  w_ticks : nat;        (* calls of [time.time()] so far *)
  w_ops : nat;          (* external operations attempted so far *)
  w_log : list Event    (* what happened so far, oldest first *)
}.

Definition initial_world : World :=
  {| w_ticks := 0; w_ops := 0; w_log := [] |}.

Definition log_event (ev : Event) (w : World) : World :=
  {| w_ticks := w_ticks w; w_ops := w_ops w; w_log := w_log w ++ [ev] |}.

(** ** The monad of the script *)

Inductive Outcome (A : Type) : Type :=
| Returned (a : A)
| Raised (e : Exn)
| OutOfFuel.
Arguments Returned {A} a.
Arguments Raised {A} e.
Arguments OutOfFuel {A}.

Definition M (A : Type) : Type := Env -> World -> Outcome A * World.

#[export] Instance M_ret : MRet M := fun A a _ w => (Returned a, w).

#[export] Instance M_bind : MBind M := fun A B k m env w =>
  match m env w with
  | (Returned a, w') => k a env w'
  | (Raised e, w') => (Raised e, w')
  | (OutOfFuel, w') => (OutOfFuel, w')
  end.

(** [raise e]; the raise is recorded so that a run shows where it stopped. *)
Definition throw {A : Type} (e : Exn) : M A :=
  fun _ w => (Raised e, log_event (EvRaised e) w).

Definition out_of_fuel {A : Type} : M A := fun _ w => (OutOfFuel, w).

(** An operation on the outside world: the environment decides whether it
    raises; when it does not, the operation is recorded and its reply
    returned. *)
Definition external {A : Type} (ev : Event) (reply : Env -> nat -> A) : M A :=
  fun env w =>
    let n := w_ops w in
    let w' := {| w_ticks := w_ticks w; w_ops := S n; w_log := w_log w |} in
    match env_fault env n with
    | Some e => (Raised e, log_event (EvRaised e) w')
    | None => (Returned (reply env n), log_event ev w')
    end.

(** [time.time()] *)
Definition time_time : M Q :=
  fun env w =>
    (Returned (env_clock env (w_ticks w)),
     {| w_ticks := S (w_ticks w); w_ops := w_ops w; w_log := w_log w |}).

(** [await asyncio.sleep(seconds)] *)
Definition sleep (seconds : Q) : M unit :=
  fun _ w => (Returned tt, log_event (EvSleep seconds) w).

(** [open(path, mode)] *)
Definition open (path mode : string) : M unit :=
  external (EvOpen path mode) (fun _ _ => tt).

(** [print(...)] *)
Definition print (p : Console) : M unit :=
  external (EvPrint p) (fun _ _ => tt).

(** ** The device *)

(** [await c.set_stop()] *)
Definition set_stop : M unit :=
  external (EvCommand SetStop) (fun _ _ => tt).

(** [await c.set_rezero()] *)
Definition set_rezero : M unit :=
  external (EvCommand SetRezero) (fun _ _ => tt).

(** [await c.set_position(position=..., accel_limit=..., velocity_limit=...,
    query=True)].  The device is taken to answer every query it receives:
    the call raises or returns the state it read.  A query left without
    an answer, for which the client returns [None], is outside this
    model. *)
Definition set_position (position accel_limit velocity_limit : Q) : M Telemetry :=
  external (EvCommand (SetPosition position accel_limit velocity_limit true))
           env_telemetry.

(** ** [csv.DictWriter] *)

(** [csv.DictWriter(f, fieldnames)] with its defaults [restval=''] and
    [extrasaction='raise']. *)
Record DictWriter : Type := {
  fieldnames : list string;
  restval : Cell
}.

Definition new_DictWriter (names : list string) : DictWriter :=
  {| fieldnames := names; restval := CStr "" |}.

(** [DictWriter._dict_to_list]: a key outside [fieldnames] is an error;
    otherwise the cells are read off in the order of [fieldnames]. *)
Definition dict_to_list (wr : DictWriter) (rowdict : gmap string Cell)
  : Exn + list Cell :=
  let wrong_fields : gset string := dom rowdict ∖ list_to_set (fieldnames wr) in
  if decide (wrong_fields = ∅)
  then inr ((fun key => default (restval wr) (rowdict !! key)) <$> fieldnames wr)
  else inl (ValueError "dict contains fields not in fieldnames").

(** [DictWriter.writerow(rowdict)] *)
Definition writerow (wr : DictWriter) (rowdict : gmap string Cell) : M unit :=
  match dict_to_list wr rowdict with
  | inl e => throw e
  | inr row => external (EvWrite row) (fun _ _ => tt)
  end.

(** [DictWriter.writeheader()]: writes [dict(zip(fieldnames, fieldnames))]. *)
Definition writeheader (wr : DictWriter) : M unit :=
  writerow wr (list_to_map (zip (fieldnames wr) (CStr <$> fieldnames wr))).

(** ** [argparse]

    The fragment of [argparse.ArgumentParser] that a parser with optional
    arguments only goes through: exact option strings, [--long=value],
    unambiguous prefixes of long options, and a value attached to a short
    option.  Words that match nothing are collected and rejected at the
    end; a bare [--] and clusters of short flags are rejected as usage
    errors.  Every rejection is [SystemExit 2]; help is [SystemExit 0]. *)

Inductive ActionKind : Type := Store | Help.

Record Action : Type := {
  option_strings : list string;
  dest : string;
  default_value : option string;   (* [None]: the attribute is not set by default *)
  kind : ActionKind
}.

Record Parser : Type := { actions : list Action }.

(** The [-h/--help] action every parser gets ([add_help=True]). *)
Definition help_action : Action :=
  {| option_strings := ["-h"; "--help"]; dest := "help";
     default_value := None; kind := Help |}.

(** [argparse.ArgumentParser()] *)
Definition ArgumentParser : Parser := {| actions := [help_action] |}.

Fixpoint lstrip_dashes (s : string) : string :=
  match s with
  | String "-"%char s' => lstrip_dashes s'
  | _ => s
  end.

Fixpoint dashes_to_underscores (s : string) : string :=
  match s with
  | EmptyString => EmptyString
  | String c s' =>
      String (if Ascii.eqb c "-"%char then "_"%char else c) (dashes_to_underscores s')
  end.

(** The attribute name of an optional: taken from the first long option
    string, or from the first option string when there is no long one. *)
Definition infer_dest (flags : list string) : string :=
  let chosen :=
    match List.find (String.prefix "--") flags with
    | Some long => long
    | None => List.hd "" flags
    end in
  dashes_to_underscores (lstrip_dashes chosen).

(** [parser.add_argument(flags..., default=dflt)] *)
Definition add_argument (p : Parser) (flags : list string) (dflt : string) : Parser :=
  {| actions := actions p ++
       [{| option_strings := flags; dest := infer_dest flags;
           default_value := Some dflt; kind := Store |}] |}.

(** [s.split(sep, 1)] *)
Fixpoint split_at (sep : ascii) (s : string) : string * option string :=
  match s with
  | EmptyString => (EmptyString, None)
  | String c s' =>
      if Ascii.eqb c sep
      then (EmptyString, Some s')
      else let '(l, r) := split_at sep s' in (String c l, r)
  end.

Fixpoint contains_char (c : ascii) (s : string) : bool :=
  match s with
  | EmptyString => false
  | String c' s' => Ascii.eqb c c' || contains_char c s'
  end.

Definition is_digit (c : ascii) : bool :=
  let n := Ascii.nat_of_ascii c in (48 <=? n)%nat && (n <=? 57)%nat.

Fixpoint all_digits (s : string) : bool :=
  match s with
  | EmptyString => true
  | String c s' => is_digit c && all_digits s'
  end.

Definition nonempty (s : string) : bool :=
  match s with EmptyString => false | _ => true end.

(** The pattern [^-\d+$|^-\d*\.\d+$] for words such as [-5] and [-.5]. *)
Definition negative_number_like (s : string) : bool :=
  match s with
  | String "-"%char body =>
      match split_at "."%char body with
      | (whole, None) => nonempty whole && all_digits whole
      | (whole, Some frac) => all_digits whole && nonempty frac && all_digits frac
      end
  | _ => false
  end.

(** How one word of the command line is read. *)
Inductive Resolution : Type :=
| Positional                                   (* not an option at all *)
| Unknown                                      (* looks like an option, matches none *)
| Ambiguous
| Matched (a : Action) (explicit_arg : option string).

Definition has_option_string (s : string) (a : Action) : bool :=
  existsb (String.eqb s) (option_strings a).

(** The candidates for an abbreviated or value-carrying spelling. *)
Definition option_tuples (p : Parser) (word : string)
  : list (Action * option string) :=
  if String.prefix "--" word then
    let '(option_prefix, explicit_arg) := split_at "="%char word in
    flat_map (fun a =>
      flat_map (fun os =>
        if String.prefix option_prefix os then [(a, explicit_arg)] else [])
        (option_strings a)) (actions p)
  else
    let short_option_prefix := String.substring 0 2 word in
    let short_explicit_arg := String.substring 2 (String.length word - 2) word in
    flat_map (fun a =>
      flat_map (fun os =>
        if String.eqb os short_option_prefix then [(a, Some short_explicit_arg)]
        else if String.prefix word os then [(a, None)]
        else [])
        (option_strings a)) (actions p).

(** [ArgumentParser._parse_optional] *)
Definition parse_optional (p : Parser) (word : string) : Resolution :=
  match word with
  | EmptyString => Positional
  | String c _ =>
      if negb (Ascii.eqb c "-"%char) then Positional
      else
        match List.find (has_option_string word) (actions p) with
        | Some a => Matched a None
        | None =>
            if (String.length word =? 1)%nat then Positional
            else
              let '(option_string, explicit_arg) := split_at "="%char word in
              match explicit_arg, List.find (has_option_string option_string) (actions p) with
              | Some v, Some a => Matched a (Some v)
              | _, _ =>
                  match option_tuples p word with
                  | [(a, explicit)] => Matched a explicit
                  | _ :: _ :: _ => Ambiguous
                  | [] =>
                      if negative_number_like word
                         && negb (existsb (fun a => existsb negative_number_like (option_strings a)) (actions p))
                      then Positional
                      else if contains_char " "%char word then Positional
                      else Unknown
                  end
              end
        end
  end.

(** The attributes a parse starts from: the declared defaults. *)
Definition initial_namespace (p : Parser) : gmap string string :=
  foldl (fun ns a =>
           match default_value a with
           | Some v => <[dest a := v]> ns
           | None => ns
           end) ∅ (actions p).

(** The scan of the words; [extras] collects what matched nothing. *)
Fixpoint consume (p : Parser) (words : list string) (ns : gmap string string)
    (extras : list string) : Exn + gmap string string :=
  match words with
  | [] => match extras with [] => inr ns | _ :: _ => inl (SystemExit 2) end
  | word :: rest =>
      if String.eqb word "--" then inl (SystemExit 2)
      else
        match parse_optional p word with
        | Positional | Unknown => consume p rest ns (extras ++ [word])
        | Ambiguous => inl (SystemExit 2)
        | Matched a explicit_arg =>
            match kind a, explicit_arg with
            | Help, None => inl (SystemExit 0)
            | Help, Some _ => inl (SystemExit 2)
            | Store, Some v => consume p rest (<[dest a := v]> ns) extras
            | Store, None =>
                match rest with
                | v :: rest' =>
                    match parse_optional p v with
                    | Positional =>
                        if String.eqb v "--" then inl (SystemExit 2)
                        else consume p rest' (<[dest a := v]> ns) extras
                    | _ => inl (SystemExit 2)
                    end
                | [] => inl (SystemExit 2)
                end
            end
        end
  end.

(** [parser.parse_args()] on [sys.argv[1:]] *)
Definition parse_args (p : Parser) : M (gmap string string) :=
  fun env w =>
    match consume p (env_argv env) (initial_namespace p) [] with
    | inl e => throw e env w
    | inr ns => (Returned ns, w)
    end.

(** [args.name] *)
Definition getattr (ns : gmap string string) (name : string) : M string :=
  match ns !! name with
  | Some v => mret v
  | None => throw (AttributeError name)
  end.

(** ** The script *)

Inductive LoopCtl : Type := Continue | Break.

(** [while True: body], cut off after [fuel] iterations. *)
Fixpoint while_true (fuel : nat) (body : M LoopCtl) : M unit :=
  match fuel with
  | O => out_of_fuel
  | S fuel' =>
      ctl ← body;
      match ctl with
      | Break => mret tt
      | Continue => while_true fuel' body
      end
  end.

(** The row handed to [csv_writer.writerow]. *)
Definition row_dict (offset_s desired : Q) (state : Telemetry) : gmap string Cell :=
  {[ "time" := CFloat offset_s;
     "desired_position" := CFloat desired;
     "position" := CFloat (POSITION state);
     "velocity" := CFloat (VELOCITY state);
     "torque" := CFloat (TORQUE state);
     "mode" := CInt (MODE state);
     "fault" := CInt (FAULT state) ]}.

(** One pass through the body of the [while True] loop.  The local
    [desired] is the script's variable [desired_position]. *)
Definition loop_body (csv_writer : DictWriter) (start_s : Q) : M LoopCtl :=
  now_s ← time_time;
  let offset_s := now_s - start_s in
  if stop_after offset_s then
    set_stop;;
    print Newline;;
    mret Break
  else
    let desired := desired_position offset_s in
    state ← set_position desired 2 5;
    let position := POSITION state in
    let velocity := VELOCITY state in
    let torque := TORQUE state in
    writerow csv_writer (row_dict offset_s desired state);;
    print (Status offset_s desired position velocity torque);;
    sleep (1 # 100);;
    mret Continue.

(** The [fieldnames] list of [main]. *)
Definition main_fieldnames : list string :=
  ["time"; "desired_position"; "position"; "velocity"; "torque"; "mode"; "fault"].

(** [main()], with the loop cut off after [fuel] iterations.
    [moteus.Controller()] only builds the client object and leaves no
    trace; the commands sent through it are the operations below. *)
Definition main (fuel : nat) : M unit :=
  let parser := add_argument ArgumentParser ["--output"; "-o"] "data.csv" in
  args ← parse_args parser;
  output ← getattr args "output";
  open output "w";;
  let csv_writer := new_DictWriter main_fieldnames in
  writeheader csv_writer;;
  set_stop;;
  set_rezero;;
  start_s ← time_time;
  while_true fuel (loop_body csv_writer start_s).

(** A run of the script from the initial world. *)
Definition run (env : Env) (fuel : nat) : Outcome unit * World :=
  main fuel env initial_world.

(** ** Views of a run *)

Definition written (evs : list Event) : list (list Cell) :=
  omap (fun ev => match ev with EvWrite row => Some row | _ => None end) evs.

Definition sent (evs : list Event) : list Command :=
  omap (fun ev => match ev with EvCommand c => Some c | _ => None end) evs.

Definition positions (cs : list Command) : list Q :=
  omap (fun c => match c with SetPosition p _ _ _ => Some p | _ => None end) cs.

(** An event other than a raise. *)
Definition quiet (ev : Event) : Prop :=
  match ev with EvRaised _ => False | _ => True end.

(** The lines of the output file, first line first. *)
Definition csv_lines (w : World) : list (list Cell) := written (w_log w).

(** The commands sent to the controller, first command first. *)
Definition commands (w : World) : list Command := sent (w_log w).

(** The positions of the set-position commands, in order. *)
Definition setpoints (w : World) : list Q := positions (commands w).

(** The cell of a data row that sits under a given header name. *)
Fixpoint index_of (name : string) (names : list string) : option nat :=
  match names with
  | [] => None
  | n :: names' =>
      if String.eqb name n then Some O else S <$> index_of name names'
  end.

Definition cell_under (name : string) (row : list Cell) : option Cell :=
  i ← index_of name main_fieldnames; row !! i.

Definition float_under (name : string) (row : list Cell) : option Q :=
  c ← cell_under name row; match c with CFloat q => Some q | _ => None end.



(** ** The command line of the script *)

(** The parser [main] builds. *)
Definition main_parser : Parser :=
  add_argument ArgumentParser ["--output"; "-o"] "data.csv".

Definition output_action : Action :=
  {| option_strings := ["--output"; "-o"]; dest := "output";
     default_value := Some "data.csv"; kind := Store |}.

(** The path [main] opens for a given [sys.argv[1:]], or the exception
    that ends the script before it opens anything. *)
Definition output_path (argv : list string) : Exn + string :=
  match consume main_parser argv (initial_namespace main_parser) [] with
  | inl e => inl e
  | inr ns =>
      match ns !! "output" with
      | Some path => inr path
      | None => inl (AttributeError "output")
      end
  end.

(** ** What a run looks like from outside

    The elapsed time sampled by iteration [i] of the loop, the reply the
    device gives there, and the events a complete iteration leaves. *)

(** [offset_s] in iteration [i]: the clock is read once before the loop
    ([start_s]) and once per iteration. *)
Definition sample (env : Env) (i : nat) : Q :=
  env_clock env (S i) - env_clock env O.

(** Four operations precede the loop; an iteration makes three. *)
Definition reply (env : Env) (i : nat) : Telemetry :=
  env_telemetry env (4 + 3 * i)%nat.

Definition command_of (env : Env) (i : nat) : Command :=
  SetPosition (desired_position (sample env i)) 2 5 true.

Definition data_row (env : Env) (i : nat) : list Cell :=
  [ CFloat (sample env i);
    CFloat (desired_position (sample env i));
    CFloat (POSITION (reply env i));
    CFloat (VELOCITY (reply env i));
    CFloat (TORQUE (reply env i));
    CInt (MODE (reply env i));
    CInt (FAULT (reply env i)) ].

Definition status_of (env : Env) (i : nat) : Console :=
  Status (sample env i) (desired_position (sample env i))
         (POSITION (reply env i)) (VELOCITY (reply env i)) (TORQUE (reply env i)).

Definition iteration_events (env : Env) (i : nat) : list Event :=
  [ EvCommand (command_of env i);
    EvWrite (data_row env i);
    EvPrint (status_of env i);
    EvSleep (1 # 100) ].

Definition header_row : list Cell := CStr <$> main_fieldnames.

Definition prelude_events (path : string) : list Event :=
  [ EvOpen path "w"; EvWrite header_row; EvCommand SetStop; EvCommand SetRezero ].

(** The ways the loop can end in iteration [m]: with the outcome and the
    events of that last, incomplete iteration. *)
Inductive loop_ending (env : Env) (m : nat) : Outcome unit -> list Event -> Prop :=
| end_break :
    stop_after (sample env m) = true ->
    loop_ending env m (Returned tt) [EvCommand SetStop; EvPrint Newline]
| end_stop_raised e :
    stop_after (sample env m) = true ->
    env_fault env (4 + 3 * m)%nat = Some e ->
    loop_ending env m (Raised e) [EvRaised e]
| end_newline_raised e :
    stop_after (sample env m) = true ->
    env_fault env (5 + 3 * m)%nat = Some e ->
    loop_ending env m (Raised e) [EvCommand SetStop; EvRaised e]
| end_position_raised e :
    stop_after (sample env m) = false ->
    env_fault env (4 + 3 * m)%nat = Some e ->
    loop_ending env m (Raised e) [EvRaised e]
| end_writerow_raised e :
    stop_after (sample env m) = false ->
    env_fault env (5 + 3 * m)%nat = Some e ->
    loop_ending env m (Raised e) [EvCommand (command_of env m); EvRaised e]
| end_status_raised e :
    stop_after (sample env m) = false ->
    env_fault env (6 + 3 * m)%nat = Some e ->
    loop_ending env m (Raised e)
      [EvCommand (command_of env m); EvWrite (data_row env m); EvRaised e]
| end_fuel :
    loop_ending env m OutOfFuel [].

(** The world at the head of the loop after [n] complete iterations. *)
Definition head_world (env : Env) (path : string) (n : nat) : World :=
  {| w_ticks := S n;
     w_ops := 4 + 3 * n;
     w_log := prelude_events path ++ flat_map (iteration_events env) (seq 0 n) |}.


(** The shapes a run of [main] can take: the command line is rejected;
    one of the four operations before the loop raises; or the loop is
    entered, completes [m] iterations and ends. *)
Inductive run_shape (env : Env) (fuel : nat) : Outcome unit -> list Event -> Prop :=
| shape_usage e :
    output_path (env_argv env) = inl e ->
    run_shape env fuel (Raised e) [EvRaised e]
| shape_prelude path j e :
    output_path (env_argv env) = inr path ->
    (j < 4)%nat ->
    env_fault env j = Some e ->
    run_shape env fuel (Raised e) (take j (prelude_events path) ++ [EvRaised e])
| shape_loop path m o tail :
    output_path (env_argv env) = inr path ->
    (forall k, (k < 4)%nat -> env_fault env k = None) ->
    (m <= fuel)%nat ->
    (forall i, (i < m)%nat -> stop_after (sample env i) = false) ->
    loop_ending env m o tail ->
    (o = OutOfFuel -> m = fuel) ->
    run_shape env fuel o
      (prelude_events path ++ flat_map (iteration_events env) (seq 0 m) ++ tail).


(** ** Environments used in the examples *)

(** A quiet environment: nothing raises. *)
Definition quiet_env (argv : list string) (clock : nat -> Q) (tel : nat -> Telemetry) : Env :=
  {| env_argv := argv; env_clock := clock;
     env_fault := fun _ => None; env_telemetry := tel |}.

Definition still : Telemetry :=
  {| POSITION := 0; VELOCITY := 0; TORQUE := 0; MODE := 10; FAULT := 0 |}.

(** A clock that advances by five seconds between readings. *)
Definition coarse_clock (n : nat) : Q := inject_Z (Z.of_nat n) * 5.

Definition coarse_env : Env := quiet_env [] coarse_clock (fun _ => still).

(** A clock that advances by two seconds between readings up to the
    reading of exactly fourteen seconds, and by one second afterwards. *)
Definition even_clock (n : nat) : Q :=
  match n with
  | O => 0
  | S i => if (i <=? 7)%nat then inject_Z (Z.of_nat i) * 2
           else inject_Z (Z.of_nat i) + 7
  end.

Definition even_env : Env := quiet_env [] even_clock (fun _ => still).

(** The coarse clock again, with the set-position command of the second
    iteration failing. *)
Definition faulty_env : Env :=
  {| env_argv := []; env_clock := coarse_clock;
     env_fault := fun n => if (n =? 7)%nat then Some (RuntimeError "timeout") else None;
     env_telemetry := fun _ => still |}.


(** ** Further views and environments *)

(** What went to the console, in order. *)
Definition printed (evs : list Event) : list Console :=
  omap (fun ev => match ev with EvPrint p => Some p | _ => None end) evs.

(** The pauses taken, in order. *)
Definition slept (evs : list Event) : list Q :=
  omap (fun ev => match ev with EvSleep d => Some d | _ => None end) evs.

(** The files opened, with their modes, in order. *)
Definition opened (evs : list Event) : list (string * string) :=
  omap (fun ev => match ev with EvOpen path mode => Some (path, mode) | _ => None end) evs.

(** The status line that shows the numbers of a data row. *)
Definition status_of_row (row : list Cell) : option Console :=
  match row with
  | [CFloat t; CFloat d; CFloat p; CFloat v; CFloat tq; _; _] =>
      Some (Status t d p v tq)
  | _ => None
  end.


(** A clock that stands still. *)
Definition frozen_env : Env := quiet_env [] (fun _ => 0) (fun _ => still).

(** A clock that is set back by one second after the start of the run,
    and then advances by one second per reading. *)
Definition backward_clock (n : nat) : Q :=
  match n with
  | O => 10
  | S i => inject_Z (Z.of_nat i) + 9
  end.

Definition backward_env : Env := quiet_env [] backward_clock (fun _ => still).

(** The standing clock, with the set-position command of the second
    iteration failing. *)
Definition stalled_env : Env :=
  {| env_argv := []; env_clock := fun _ => 0;
     env_fault := fun n => if (n =? 7)%nat then Some (RuntimeError "timeout") else None;
     env_telemetry := fun _ => still |}.

(** The same environment with other replies from the device. *)
Definition with_telemetry (env : Env) (tel : nat -> Telemetry) : Env :=
  {| env_argv := env_argv env; env_clock := env_clock env;
     env_fault := env_fault env; env_telemetry := tel |}.

(** Two worlds that agree on everything but what the device replied. *)
Definition same_course (w w' : World) : Prop :=
  w_ticks w = w_ticks w' /\ w_ops w = w_ops w'
  /\ sent (w_log w) = sent (w_log w')
  /\ slept (w_log w) = slept (w_log w')
  /\ length (written (w_log w)) = length (written (w_log w')).

(** ** The rounding of binary64

    The embedding computes with exact rationals.  The one operation of the
    setpoint formula that a Python float rounds is the final true division
    of the integer [math.floor(...)] by [STEP_DIVISIONS], which is
    correctly rounded: to the nearest binary64 number, ties to the even
    one.  [binary64] is that rounding for the normal range (53 significant
    bits, no overflow, no subnormals), and [desired_position_binary64] the
    value the script has in its variable [desired_position]. *)





(** ** More environments for the examples *)



(** A clock that advances by a second and a half between readings. *)
Definition brisk_clock (n : nat) : Q := inject_Z (Z.of_nat n) * (3 # 2).

Definition brisk_env : Env := quiet_env [] brisk_clock (fun _ => still).

(** ** Proof automation *)

(** Unfold the primitives of the monad and simplify. *)
Ltac run_monad :=
  unfold mbind, M_bind, mret, M_ret, external, throw, time_time, sleep,
    print, set_stop, set_rezero, set_position, open, log_event; cbn.

(** The same by plain computation, leaving no primitive folded. *)
Ltac run_prims :=
  cbv beta iota zeta delta
    [mbind M_bind mret M_ret external throw time_time sleep print
     set_stop set_rezero open log_event initial_world];
  cbn [w_ops w_ticks w_log app].

(** Read the rows off a log that grew by a few events. *)
Ltac count_rows :=
  unfold csv_lines, written; cbn [w_log fst snd];
  rewrite ?omap_app; cbn [omap list_omap]; rewrite ?app_nil_r.

(** Close the arithmetic and list side conditions of a tally. *)
Ltac close_tally m Hbefore :=
  rewrite ?app_nil_r, ?seq_S, ?map_app; repeat split;
  try lia; try congruence; try assumption; try (now left);
  try (right; split; reflexivity); eauto;
  let i := fresh "i" in let Hi := fresh "Hi" in
  intros i Hi; destruct (decide (i = m)) as [->|]; [assumption|apply Hbefore; lia].

(** Compare two worlds event list by event list. *)
Ltac same_course_step :=
  unfold same_course, sent, slept, written in *;
  cbn [w_ticks w_ops w_log fst snd] in *;
  rewrite ?omap_app, ?length_app; cbn [omap list_omap length app];
  rewrite ?app_nil_r;
  repeat split; first [congruence | lia].

(** * Properties *)

(** ** The setpoint formula *)

Lemma STEP_TIME_S_pos : 0 < STEP_TIME_S.
Proof. reflexivity. Qed.

Lemma STEP_DIVISIONS_pos : 0 < inject_Z STEP_DIVISIONS.
Proof. reflexivity. Qed.

(** The floor brackets the elapsed time between two multiples of the
    step time. *)
Lemma step_index_bounds (t : Q) :
  inject_Z (step_index t) * STEP_TIME_S <= t
  /\ t < inject_Z (step_index t + 1) * STEP_TIME_S.
Proof.
  unfold step_index.
  pose proof (Qfloor_le (t / STEP_TIME_S)) as Hlo.
  pose proof (Qlt_floor (t / STEP_TIME_S)) as Hhi.
  pose proof STEP_TIME_S_pos as HT.
  assert (E : t / STEP_TIME_S * STEP_TIME_S == t).
  { field. intros H. rewrite H in HT. discriminate. }
  split.
  - rewrite <- E at 2.
    apply Qmult_le_compat_r; [exact Hlo | apply Qlt_le_weak; exact HT].
  - rewrite <- E at 1.
    apply Qmult_lt_compat_r; assumption.
Qed.

(** Conversely the bracket determines the floor. *)
Lemma step_index_unique (t : Q) (k : Z) :
  inject_Z k * STEP_TIME_S <= t ->
  t < inject_Z (k + 1) * STEP_TIME_S ->
  step_index t = k.
Proof.
  intros Hlo Hhi.
  destruct (step_index_bounds t) as [Flo Fhi].
  pose proof STEP_TIME_S_pos as HT.
  assert (H1 : inject_Z k < inject_Z (step_index t + 1)).
  { apply Qmult_lt_r with (z := STEP_TIME_S); [exact HT|].
    eapply Qle_lt_trans; eassumption. }
  assert (H2 : inject_Z (step_index t) < inject_Z (k + 1)).
  { apply Qmult_lt_r with (z := STEP_TIME_S); [exact HT|].
    eapply Qle_lt_trans; eassumption. }
  rewrite <- Zlt_Qlt in H1, H2. lia.
Qed.

Lemma step_index_mono (s t : Q) : s <= t -> (step_index s <= step_index t)%Z.
Proof.
  intros Hst.
  destruct (step_index_bounds s) as [Slo _].
  destruct (step_index_bounds t) as [_ Thi].
  pose proof STEP_TIME_S_pos as HT.
  assert (H : inject_Z (step_index s) < inject_Z (step_index t + 1)).
  { apply Qmult_lt_r with (z := STEP_TIME_S); [exact HT|].
    eapply Qle_lt_trans; [|exact Thi]. eapply Qle_trans; eassumption. }
  rewrite <- Zlt_Qlt in H. lia.
Qed.

Lemma desired_position_mono (s t : Q) :
  s <= t -> desired_position s <= desired_position t.
Proof.
  intros Hst. unfold desired_position.
  apply Qmult_le_compat_r.
  - rewrite <- Zle_Qle. apply step_index_mono, Hst.
  - apply Qlt_le_weak, Qinv_lt_0_compat, STEP_DIVISIONS_pos.
Qed.

(** On a plateau [k*T <= t < (k+1)*T] the setpoint is [k/D]. *)
Lemma desired_position_plateau (t : Q) (k : Z) :
  inject_Z k * STEP_TIME_S <= t ->
  t < inject_Z (k + 1) * STEP_TIME_S ->
  desired_position t = inject_Z k / inject_Z STEP_DIVISIONS.
Proof.
  intros Hlo Hhi. unfold desired_position.
  now rewrite (step_index_unique t k Hlo Hhi).
Qed.

(** The guard of the loop, read as an inequality. *)
Lemma stop_after_true (t : Q) : stop_after t = true <-> stop_threshold < t.
Proof.
  unfold stop_after. rewrite negb_true_iff.
  split.
  - intros H. apply Qnot_le_lt. intros Hle.
    apply Qle_bool_iff in Hle. congruence.
  - intros H. destruct (Qle_bool t stop_threshold) eqn:E; [|reflexivity].
    apply Qle_bool_iff in E. exfalso. eapply Qlt_not_le; eassumption.
Qed.

Lemma stop_after_false (t : Q) : stop_after t = false <-> t <= stop_threshold.
Proof.
  unfold stop_after. rewrite negb_false_iff. apply Qle_bool_iff.
Qed.

Lemma stop_threshold_value : stop_threshold == 14.
Proof. reflexivity. Qed.

(** ** The writer *)

Lemma dict_to_list_header :
  dict_to_list (new_DictWriter main_fieldnames)
    (list_to_map (zip main_fieldnames (CStr <$> main_fieldnames)))
  = inr header_row.
Proof. vm_compute. reflexivity. Qed.

Lemma dict_to_list_row (t d : Q) (st : Telemetry) :
  dict_to_list (new_DictWriter main_fieldnames) (row_dict t d st)
  = inr [ CFloat t; CFloat d; CFloat (POSITION st); CFloat (VELOCITY st);
          CFloat (TORQUE st); CInt (MODE st); CInt (FAULT st) ].
Proof. vm_compute. reflexivity. Qed.

Lemma writeheader_main :
  writeheader (new_DictWriter main_fieldnames)
  = external (EvWrite header_row) (fun _ _ => tt).
Proof.
  unfold writeheader, writerow.
  change (fieldnames (new_DictWriter main_fieldnames)) with main_fieldnames.
  now rewrite dict_to_list_header.
Qed.

Lemma writerow_main (t d : Q) (st : Telemetry) :
  writerow (new_DictWriter main_fieldnames) (row_dict t d st)
  = external
      (EvWrite [ CFloat t; CFloat d; CFloat (POSITION st); CFloat (VELOCITY st);
                 CFloat (TORQUE st); CInt (MODE st); CInt (FAULT st) ])
      (fun _ _ => tt).
Proof. unfold writerow. now rewrite dict_to_list_row. Qed.

(** ** One iteration *)

Lemma head_world_step (env : Env) (path : string) (n : nat) :
  {| w_ticks := S (S n);
     w_ops := S (S (S (4 + 3 * n)));
     w_log := w_log (head_world env path n) ++ iteration_events env n |}
  = head_world env path (S n).
Proof.
  unfold head_world. f_equal.
  - lia.
  - cbn [w_log]. rewrite seq_S, flat_map_app. cbn [flat_map Nat.add].
    rewrite app_nil_r, <- app_assoc. reflexivity.
Qed.

(** An iteration started at the head of the loop either completes, and
    leaves the world at the next head, or ends the loop in one of the ways
    of [loop_ending]. *)
Lemma loop_body_head (env : Env) (path : string) (n : nat) :
  let r := loop_body (new_DictWriter main_fieldnames) (env_clock env O) env
             (head_world env path n) in
  match fst r with
  | Returned Continue =>
      stop_after (sample env n) = false /\ snd r = head_world env path (S n)
  | Returned Break =>
      exists tail, loop_ending env n (Returned tt) tail
                   /\ w_log (snd r) = w_log (head_world env path n) ++ tail
  | Raised e =>
      exists tail, loop_ending env n (Raised e) tail
                   /\ w_log (snd r) = w_log (head_world env path n) ++ tail
  | OutOfFuel => False
  end.
Proof.
  cbv zeta. unfold loop_body. run_monad.
  fold (sample env n).
  destruct (stop_after (sample env n)) eqn:Hstop.
  - run_monad.
    destruct (env_fault env (S (S (S (S (n + (n + (n + 0)))))))) eqn:F1; cbn.
    + eexists; split; [eapply end_stop_raised; eauto|].
      reflexivity.
    + destruct (env_fault env (S (S (S (S (S (n + (n + (n + 0))))))))) eqn:F2; cbn.
      * eexists; split; [eapply end_newline_raised; eauto|].
        rewrite <- app_assoc. reflexivity.
      * eexists; split; [eapply end_break; eauto|].
        rewrite <- app_assoc. reflexivity.
  - run_monad.
    destruct (env_fault env (S (S (S (S (n + (n + (n + 0)))))))) eqn:F1; cbn.
    + eexists; split; [eapply end_position_raised; eauto|].
      reflexivity.
    + unfold writerow. rewrite dict_to_list_row. run_monad.
      destruct (env_fault env (S (S (S (S (S (n + (n + (n + 0))))))))) eqn:F2; cbn.
      * eexists; split; [eapply end_writerow_raised; eauto|].
        rewrite <- app_assoc. reflexivity.
      * destruct (env_fault env (S (S (S (S (S (S (n + (n + (n + 0)))))))))) eqn:F3; cbn.
        -- eexists; split; [eapply end_status_raised; eauto|].
           rewrite <- !app_assoc. reflexivity.
        -- split; [reflexivity|].
           rewrite <- head_world_step. f_equal.
           cbn. rewrite <- !app_assoc. reflexivity.
Qed.

(** ** The loop *)

Lemma while_true_S (fuel : nat) (body : M LoopCtl) (env : Env) (w : World) :
  while_true (S fuel) body env w =
  match body env w with
  | (Returned Continue, w') => while_true fuel body env w'
  | (Returned Break, w') => (Returned tt, w')
  | (Raised e, w') => (Raised e, w')
  | (OutOfFuel, w') => (OutOfFuel, w')
  end.
Proof.
  cbn [while_true]. unfold mbind, M_bind.
  destruct (body env w) as [[[|]|e|] w']; reflexivity.
Qed.

(** From the head of the loop after [n] iterations, the loop completes
    some more iterations, none of which met the stop condition, and then
    ends in one of the ways of [loop_ending]. *)
Lemma loop_from_head (env : Env) (path : string) (fuel : nat) : forall n : nat,
  let r := while_true fuel
             (loop_body (new_DictWriter main_fieldnames) (env_clock env O))
             env (head_world env path n) in
  exists (m : nat) (tail : list Event),
    (n <= m <= n + fuel)%nat
    /\ (forall i, (n <= i < m)%nat -> stop_after (sample env i) = false)
    /\ loop_ending env m (fst r) tail
    /\ w_log (snd r) = w_log (head_world env path m) ++ tail
    /\ (fst r = OutOfFuel -> m = (n + fuel)%nat).
Proof.
  induction fuel as [|fuel IH]; intros n; cbv zeta.
  - exists n, []. cbn. rewrite app_nil_r.
    split; [lia|]. split; [intros; lia|]. split; [constructor|].
    split; [reflexivity | intros; lia].
  - rewrite while_true_S.
    pose proof (loop_body_head env path n) as Hbody. cbv zeta in Hbody.
    destruct (loop_body (new_DictWriter main_fieldnames) (env_clock env 0) env
                (head_world env path n)) as [[[|]|e|] w'];
      cbn [fst snd] in Hbody; cbv beta iota.
    + destruct Hbody as [Hstop ->].
      destruct (IH (S n)) as (m & tail & Hm & Hbefore & Hend & Hlog & Hdiv).
      exists m, tail.
      split; [lia|]. split; [|split; [exact Hend|split; [exact Hlog|]]].
      * intros i Hi. destruct (decide (i = n)) as [->|Hne]; [exact Hstop|].
        apply Hbefore. lia.
      * intros Hd. specialize (Hdiv Hd). lia.
    + destruct Hbody as (tail & Hend & Hlog).
      exists n, tail. cbn [fst snd].
      split; [lia|]. split; [intros; lia|]. split; [exact Hend|].
      split; [exact Hlog | discriminate].
    + destruct Hbody as (tail & Hend & Hlog).
      exists n, tail. cbn [fst snd].
      split; [lia|]. split; [intros; lia|]. split; [exact Hend|].
      split; [exact Hlog | discriminate].
    + contradiction.
Qed.

(** ** The whole run *)

Lemma run_has_shape_eq (env : Env) (fuel : nat) (o : Outcome unit) (w : World) :
  run env fuel = (o, w) -> run_shape env fuel o (w_log w).
Proof.
  unfold run, main. cbv zeta. fold main_parser.
  unfold mbind at 1. unfold M_bind at 1. unfold parse_args.
  destruct (consume main_parser (env_argv env) (initial_namespace main_parser) [])
    as [e|ns] eqn:Hparse.
  { run_prims. intros Hrun; injection Hrun as <- <-.
    apply shape_usage. unfold output_path. now rewrite Hparse. }
  unfold mbind at 1. unfold M_bind at 1. unfold getattr.
  destruct (ns !! "output") as [path|] eqn:Hout.
  2:{ run_prims. intros Hrun; injection Hrun as <- <-. apply shape_usage.
      unfold output_path. now rewrite Hparse, Hout. }
  assert (Hpath : output_path (env_argv env) = inr path).
  { unfold output_path. now rewrite Hparse, Hout. }
  rewrite writeheader_main.
  run_prims.
  destruct (env_fault env 0) eqn:F0; run_prims.
  { intros Hrun; injection Hrun as <- <-.
    apply (shape_prelude env fuel path 0 e); auto; lia. }
  destruct (env_fault env 1) eqn:F1; run_prims.
  { intros Hrun; injection Hrun as <- <-.
    apply (shape_prelude env fuel path 1 e); auto; lia. }
  destruct (env_fault env 2) eqn:F2; run_prims.
  { intros Hrun; injection Hrun as <- <-.
    apply (shape_prelude env fuel path 2 e); auto; lia. }
  destruct (env_fault env 3) eqn:F3; run_prims.
  { intros Hrun; injection Hrun as <- <-.
    apply (shape_prelude env fuel path 3 e); auto; lia. }
  change {| w_ticks := 1; w_ops := 4;
            w_log := [EvOpen path "w"; EvWrite header_row;
                      EvCommand SetStop; EvCommand SetRezero] |}
    with (head_world env path 0).
  intros Hrun.
  destruct (loop_from_head env path fuel 0) as (m & tail & Hm & Hbefore & Hend & Hlog & Hdiv).
  cbv zeta in *. rewrite Hrun in *. cbn [fst snd] in *.
  rewrite Hlog. unfold head_world; cbn [w_log].
  rewrite <- app_assoc.
  apply shape_loop; auto.
  - intros k Hk.
    destruct k as [|[|[|[|k]]]]; try assumption; lia.
  - lia.
  - intros i Hi. apply Hbefore. lia.
Qed.

Lemma run_has_shape (env : Env) (fuel : nat) :
  run_shape env fuel (fst (run env fuel)) (w_log (snd (run env fuel))).
Proof.
  apply run_has_shape_eq. now destruct (run env fuel).
Qed.

(** ** The views of a run *)

Lemma written_app (l1 l2 : list Event) : written (l1 ++ l2) = written l1 ++ written l2.
Proof. apply omap_app. Qed.

Lemma sent_app (l1 l2 : list Event) : sent (l1 ++ l2) = sent l1 ++ sent l2.
Proof. apply omap_app. Qed.

Lemma positions_app (l1 l2 : list Command) :
  positions (l1 ++ l2) = positions l1 ++ positions l2.
Proof. apply omap_app. Qed.

Lemma written_iterations (env : Env) (l : list nat) :
  written (flat_map (iteration_events env) l) = map (data_row env) l.
Proof.
  induction l as [|i l IH]; [reflexivity|].
  cbn [flat_map map]. rewrite written_app, IH. reflexivity.
Qed.

Lemma sent_iterations (env : Env) (l : list nat) :
  sent (flat_map (iteration_events env) l) = map (command_of env) l.
Proof.
  induction l as [|i l IH]; [reflexivity|].
  cbn [flat_map map]. rewrite sent_app, IH. reflexivity.
Qed.

Lemma positions_commands (env : Env) (l : list nat) :
  positions (map (command_of env) l)
  = map (fun i => desired_position (sample env i)) l.
Proof.
  induction l as [|i l IH]; [reflexivity|].
  cbn [map]. rewrite <- IH. reflexivity.
Qed.

(** What the file, the device and the setpoints look like at the end of
    any run: [mc] set-position commands went out, for the first [mc]
    samples, none of which met the stop condition; [mr] data rows follow
    the header, and at most the last command has no row. *)
Lemma run_views (env : Env) (fuel : nat) :
  let w := snd (run env fuel) in
  exists mc mr : nat,
    (mr <= mc <= S mr)%nat
    /\ (mc <= S fuel)%nat
    /\ (forall i, (i < mc)%nat -> stop_after (sample env i) = false)
    /\ setpoints w = map (fun i => desired_position (sample env i)) (seq 0 mc)
    /\ (csv_lines w = [] /\ commands w = []
           /\ (exists e, fst (run env fuel) = Raised e)
        \/ csv_lines w = header_row :: map (data_row env) (seq 0 mr)).
Proof.
  cbv zeta. unfold setpoints, commands, csv_lines.
  destruct (run_has_shape env fuel)
    as [e He | path j e Hp Hj He | path m o tail Hp Hq Hm Hbefore Hend Hdiv].
  - exists 0%nat, 0%nat. cbn. repeat split; try lia. left. eauto.
  - exists 0%nat, 0%nat.
    split; [lia|]. split; [lia|]. split; [intros; lia|].
    destruct j as [|[|[|[|j]]]]; try lia; cbn; (split; [reflexivity|]);
      first [ left; split; [reflexivity|split; [reflexivity|eexists; reflexivity]]
            | right; reflexivity ].
  - rewrite !sent_app, !written_app, !positions_app.
    rewrite sent_iterations, written_iterations, positions_commands.
    cbn [prelude_events sent written omap positions app].
    inversion Hend; subst; cbn [sent written omap positions app].
    1-4,7: exists m, m; rewrite ?app_nil_r;
      (split; [lia|]); (split; [lia|]); (split; [exact Hbefore|]);
      (split; [reflexivity|]); right; reflexivity.
    + exists (S m), m. rewrite seq_S, map_app.
      split; [lia|]. split; [lia|]. split.
      { intros i Hi. destruct (decide (i = m)) as [->|]; [assumption|].
        apply Hbefore; lia. }
      split; [reflexivity|]. right. now rewrite app_nil_r.
    + exists (S m), (S m). rewrite !seq_S, !map_app.
      split; [lia|]. split; [lia|]. split.
      { intros i Hi. destruct (decide (i = m)) as [->|]; [assumption|].
        apply Hbefore; lia. }
      split; [reflexivity|]. right. reflexivity.
Qed.

(** ** The setpoints of a run *)

(** The [i]-th set-position command of a run carries the formula applied
    to the [i]-th sampled elapsed time. *)
Lemma run_setpoint_lookup (env : Env) (fuel i : nat) (p : Q) :
  setpoints (snd (run env fuel)) !! i = Some p ->
  p = desired_position (sample env i)
  /\ stop_after (sample env i) = false.
Proof.
  intros Hp.
  destruct (run_views env fuel) as (mc & mr & _ & _ & Hbefore & Hsp & _).
  cbv zeta in Hsp. rewrite Hsp in Hp.
  apply list_lookup_fmap_Some in Hp as (j & Hp & Hj).
  apply lookup_seq in Hj as [-> Hlt]. cbn in Hp.
  split; [exact Hp | apply Hbefore, Hlt].
Qed.

(** C1.  For every elapsed time [t >= 0] sampled by the loop, the position
    commanded for it is [floor(t / T) / D]: a step function that is [0] on
    [[0, T)], [1/D] on [[T, 2T)], and [k/D] on [[k*T, (k+1)*T)]. *)
Theorem C1_setpoint_is_step_function (env : Env) (fuel i : nat) (p : Q) :
  setpoints (snd (run env fuel)) !! i = Some p ->
  0 <= sample env i ->
  p = inject_Z (Qfloor (sample env i / STEP_TIME_S)) / inject_Z STEP_DIVISIONS
  /\ (sample env i < STEP_TIME_S -> p == 0)
  /\ (STEP_TIME_S <= sample env i -> sample env i < 2 * STEP_TIME_S ->
      p == 1 / inject_Z STEP_DIVISIONS)
  /\ (forall k : Z,
        inject_Z k * STEP_TIME_S <= sample env i ->
        sample env i < inject_Z (k + 1) * STEP_TIME_S ->
        p == inject_Z k / inject_Z STEP_DIVISIONS).
Proof.
  intros Hp Ht.
  apply run_setpoint_lookup in Hp as [-> _].
  split; [reflexivity|]. split; [|split].
  - intros Hlt.
    rewrite (desired_position_plateau (sample env i) 0).
    + reflexivity.
    + rewrite Qmult_0_l. exact Ht.
    + cbn [Z.add]. rewrite Qmult_1_l. exact Hlt.
  - intros Hlo Hhi.
    rewrite (desired_position_plateau (sample env i) 1).
    + reflexivity.
    + rewrite Qmult_1_l. exact Hlo.
    + exact Hhi.
  - intros k Hlo Hhi.
    rewrite (desired_position_plateau (sample env i) k Hlo Hhi).
    reflexivity.
Qed.

Lemma C1_setpoint_is_step_function_witness :
  setpoints (snd (run coarse_env 5)) !! 0%nat = Some (2 # 6)
  /\ 0 <= sample coarse_env 0
  /\ (2 # 6 = inject_Z (Qfloor (sample coarse_env 0 / STEP_TIME_S))
              / inject_Z STEP_DIVISIONS
      /\ (sample coarse_env 0 < STEP_TIME_S -> 2 # 6 == 0)
      /\ (STEP_TIME_S <= sample coarse_env 0 ->
          sample coarse_env 0 < 2 * STEP_TIME_S ->
          2 # 6 == 1 / inject_Z STEP_DIVISIONS)
      /\ (forall k : Z,
            inject_Z k * STEP_TIME_S <= sample coarse_env 0 ->
            sample coarse_env 0 < inject_Z (k + 1) * STEP_TIME_S ->
            2 # 6 == inject_Z k / inject_Z STEP_DIVISIONS)).
Proof.
  assert (H1 : setpoints (snd (run coarse_env 5)) !! 0%nat = Some (2 # 6))
    by (vm_compute; reflexivity).
  assert (H2 : 0 <= sample coarse_env 0) by (vm_compute; discriminate).
  split; [exact H1|]. split; [exact H2|].
  exact (C1_setpoint_is_step_function coarse_env 5 0 (2 # 6) H1 H2).
Defined.

(** ** Termination *)

(** A boolean property that holds somewhere holds at a least index. *)
Lemma least_true (n : nat) : forall f : nat -> bool,
  f n = true ->
  exists m : nat, (m <= n)%nat /\ f m = true /\ forall i, (i < m)%nat -> f i = false.
Proof.
  induction n as [|n IH]; intros f Hf.
  - exists 0%nat. split; [lia|]. split; [exact Hf | intros; lia].
  - destruct (f 0%nat) eqn:H0.
    + exists 0%nat. split; [lia|]. split; [exact H0 | intros; lia].
    + destruct (IH (fun i => f (S i)) Hf) as (m & Hm & Hfm & Hlt).
      exists (S m). split; [lia|]. split; [exact Hfm|].
      intros [|i] Hi; [exact H0 | apply Hlt; lia].
Qed.

(** C2.  When the sampled elapsed times are strictly increasing and
    unbounded, the loop terminates: there is a first iteration [n] whose
    elapsed time exceeds [T * (D + 1)]; with more than [n] iterations
    allowed the run never goes on for ever and sends at most [n]
    set-position commands; and when nothing raises, the run returns
    having sent the stop command in iteration [n] and nothing after it. *)
Theorem C2_loop_terminates (env : Env) :
  (forall i, sample env i < sample env (S i)) ->
  (forall B : Q, exists i, B < sample env i) ->
  exists n : nat,
    stop_threshold < sample env n
    /\ (forall i, (i < n)%nat -> sample env i <= stop_threshold)
    /\ forall fuel, (n < fuel)%nat ->
         fst (run env fuel) <> OutOfFuel
         /\ (length (setpoints (snd (run env fuel))) <= n)%nat
         /\ ((forall k, env_fault env k = None) ->
             forall path, output_path (env_argv env) = inr path ->
             fst (run env fuel) = Returned tt
             /\ commands (snd (run env fuel))
                = [SetStop; SetRezero] ++ map (command_of env) (seq 0 n) ++ [SetStop]).
Proof.
  intros _ Hunbounded.
  destruct (Hunbounded stop_threshold) as [i0 Hi0].
  apply stop_after_true in Hi0.
  destruct (least_true i0 (fun i => stop_after (sample env i)) Hi0)
    as (n & _ & Hn & Hbelow).
  exists n. split; [now apply stop_after_true|].
  split; [intros i Hi; now apply stop_after_false, Hbelow|].
  intros fuel Hfuel.
  assert (Hcap : forall m, (forall i, (i < m)%nat -> stop_after (sample env i) = false) ->
                           (m <= n)%nat).
  { intros m Hm. destruct (le_lt_dec m n) as [|Hlt]; [assumption|].
    specialize (Hm n Hlt). congruence. }
  split; [|split].
  - destruct (run_has_shape env fuel)
      as [e He | path j e Hp Hj He | path m o tail Hp Hq Hm Hbefore Hend Hdiv];
      try discriminate.
    intros ->. specialize (Hdiv eq_refl). specialize (Hcap m Hbefore). lia.
  - destruct (run_views env fuel) as (mc & mr & _ & _ & Hbefore & Hsp & _).
    cbv zeta in Hsp. rewrite Hsp, length_map, length_seq.
    apply Hcap, Hbefore.
  - intros Hquiet path Hpath. unfold commands.
    destruct (run_has_shape env fuel)
      as [e He | path' j e Hp Hj He | path' m o tail Hp Hq Hm Hbefore Hend Hdiv].
    + congruence.
    + rewrite Hquiet in He. discriminate.
    + pose proof (Hcap m Hbefore) as Hle.
      inversion Hend as [Hs | e Hs He | e Hs He | e Hs He | e Hs He | e Hs He |];
        subst; try (rewrite Hquiet in He; discriminate).
      * assert (m = n) as ->.
        { destruct (le_lt_dec n m) as [|Hlt]; [lia|].
          specialize (Hbelow m Hlt). congruence. }
        split; [reflexivity|].
        rewrite !sent_app, sent_iterations. reflexivity.
      * specialize (Hdiv eq_refl). lia.
Qed.

Lemma coarse_sample (i : nat) :
  sample coarse_env i == inject_Z (Z.of_nat (S i)) * 5.
Proof.
  unfold sample, coarse_env, quiet_env, coarse_clock. cbn [env_clock].
  change (inject_Z (Z.of_nat 0)) with 0. ring.
Qed.

Lemma coarse_samples_increasing (i : nat) :
  sample coarse_env i < sample coarse_env (S i).
Proof.
  rewrite !coarse_sample.
  apply Qmult_lt_compat_r; [reflexivity|].
  rewrite <- Zlt_Qlt. lia.
Qed.

Lemma coarse_samples_unbounded (B : Q) : exists i, B < sample coarse_env i.
Proof.
  exists (Z.to_nat (Qceiling B)).
  rewrite coarse_sample.
  apply Qle_lt_trans with (inject_Z (Qceiling B)); [apply Qle_ceiling|].
  apply Qlt_le_trans with (inject_Z (Z.of_nat (S (Z.to_nat (Qceiling B))))).
  - rewrite <- Zlt_Qlt. lia.
  - rewrite <- (Qmult_1_r (inject_Z (Z.of_nat (S (Z.to_nat (Qceiling B)))))) at 1.
    apply Qmult_le_l; [|discriminate].
    change 0 with (inject_Z 0). rewrite <- Zlt_Qlt. lia.
Qed.

Lemma C2_loop_terminates_witness :
  (forall i, sample coarse_env i < sample coarse_env (S i))
  /\ (forall B : Q, exists i, B < sample coarse_env i)
  /\ exists n : nat,
       stop_threshold < sample coarse_env n
       /\ (forall i, (i < n)%nat -> sample coarse_env i <= stop_threshold)
       /\ forall fuel, (n < fuel)%nat ->
            fst (run coarse_env fuel) <> OutOfFuel
            /\ (length (setpoints (snd (run coarse_env fuel))) <= n)%nat
            /\ ((forall k, env_fault coarse_env k = None) ->
                forall path, output_path (env_argv coarse_env) = inr path ->
                fst (run coarse_env fuel) = Returned tt
                /\ commands (snd (run coarse_env fuel))
                   = [SetStop; SetRezero]
                     ++ map (command_of coarse_env) (seq 0 n) ++ [SetStop]).
Proof.
  split; [exact coarse_samples_increasing|].
  split; [exact coarse_samples_unbounded|].
  exact (C2_loop_terminates coarse_env
           coarse_samples_increasing coarse_samples_unbounded).
Defined.

(** ** One revolution *)

(** Strictly before the threshold the setpoint stays within one
    revolution. *)
Lemma desired_position_within_revolution (t : Q) :
  0 <= t -> t < stop_threshold ->
  0 <= desired_position t /\ desired_position t <= 1.
Proof.
  intros Hlo Hhi.
  destruct (step_index_bounds t) as [Flo Fhi].
  assert (H0 : (0 <= step_index t)%Z).
  { change 0%Z with (step_index 0). now apply step_index_mono. }
  assert (H6 : (step_index t <= 6)%Z).
  { assert (H : inject_Z (step_index t) < inject_Z 7).
    { apply Qmult_lt_r with (z := STEP_TIME_S); [apply STEP_TIME_S_pos|].
      eapply Qle_lt_trans; [exact Flo|]. exact Hhi. }
    rewrite <- Zlt_Qlt in H. lia. }
  unfold desired_position. split.
  - apply Qle_shift_div_l; [apply STEP_DIVISIONS_pos|].
    rewrite Qmult_0_l. change 0 with (inject_Z 0). now rewrite <- Zle_Qle.
  - apply Qle_shift_div_r; [apply STEP_DIVISIONS_pos|].
    rewrite Qmult_1_l. now rewrite <- Zle_Qle.
Qed.

(** C4, as stated, fails at its closed upper end.  At the elapsed time of
    exactly [T * (D + 1)] = 14 seconds the guard [offset_s > 14] is false,
    so the loop still sends a command, and the position it sends is
    [7/6], beyond one revolution.  The run of [even_env] samples 0, 2,
    ..., 12, 14 and then 15 seconds; its eighth set-position command
    carries [7/6]. *)
Theorem C4_setpoint_at_threshold_exceeds_revolution :
  sample even_env 7 == stop_threshold
  /\ stop_after (sample even_env 7) = false
  /\ setpoints (snd (run even_env 20)) !! 7%nat = Some (desired_position (sample even_env 7))
  /\ desired_position (sample even_env 7) == 7 # 6
  /\ ~ desired_position (sample even_env 7) <= 1.
Proof.
  split; [reflexivity|]. split; [reflexivity|].
  split; [vm_compute; reflexivity|]. split; [reflexivity|].
  vm_compute. intros H. apply H. reflexivity.
Qed.

(** C4, as amended.  Every command of a run is sent at an elapsed time of
    at most [T * (D + 1)].  Sent at an elapsed time [t] with
    [0 <= t < T * (D + 1)], it carries a position within one revolution,
    [0 <= p <= 1]; sent at [t = T * (D + 1)] exactly, which the strict
    guard lets through, it carries [(D + 1) / D] = 7/6. *)
Theorem C4_setpoint_within_revolution (env : Env) (fuel i : nat) (p : Q) :
  setpoints (snd (run env fuel)) !! i = Some p ->
  0 <= sample env i ->
  sample env i <= stop_threshold
  /\ (sample env i < stop_threshold -> 0 <= p /\ p <= 1)
  /\ (sample env i == stop_threshold -> p == 7 # 6).
Proof.
  intros Hp Hlo.
  apply run_setpoint_lookup in Hp as [-> Hstop].
  apply stop_after_false in Hstop.
  split; [exact Hstop|]. split.
  - intros Hhi. now apply desired_position_within_revolution.
  - intros Heq.
    rewrite (desired_position_plateau (sample env i) 7).
    + reflexivity.
    + rewrite Heq. discriminate.
    + rewrite Heq. reflexivity.
Qed.

Lemma C4_setpoint_within_revolution_witness :
  setpoints (snd (run coarse_env 5)) !! 0%nat = Some (2 # 6)
  /\ 0 <= sample coarse_env 0
  /\ sample coarse_env 0 <= stop_threshold
  /\ (sample coarse_env 0 < stop_threshold -> 0 <= 2 # 6 /\ 2 # 6 <= 1)
  /\ (sample coarse_env 0 == stop_threshold -> 2 # 6 == 7 # 6).
Proof.
  assert (H1 : setpoints (snd (run coarse_env 5)) !! 0%nat = Some (2 # 6))
    by (vm_compute; reflexivity).
  assert (H2 : 0 <= sample coarse_env 0) by (vm_compute; discriminate).
  split; [exact H1|]. split; [exact H2|].
  exact (C4_setpoint_within_revolution coarse_env 5 0 (2 # 6) H1 H2).
Defined.


(** ** The layout of the file *)

(** C5.  Whenever anything was written to the output file, its first line
    is the header [time, desired_position, position, velocity, torque,
    mode, fault], and the lines after it are the rows of the iterations in
    order.  The row of iteration [i] holds, in the order of the header,
    the values the script put under these names: the elapsed time it
    sampled, the position it commanded for it, and the position, velocity,
    torque, mode and fault of the reply to that command.  The file stays
    empty only when the run raised before any command went to the
    device. *)
Theorem C5_csv_header_and_field_order (env : Env) (fuel : nat) :
  match csv_lines (snd (run env fuel)) with
  | [] =>
      commands (snd (run env fuel)) = []
      /\ exists e, fst (run env fuel) = Raised e
  | first :: rows =>
      first = [ CStr "time"; CStr "desired_position"; CStr "position";
                CStr "velocity"; CStr "torque"; CStr "mode"; CStr "fault" ]
      /\ rows
         = map (fun i =>
                  [ CFloat (sample env i);
                    CFloat (desired_position (sample env i));
                    CFloat (POSITION (reply env i));
                    CFloat (VELOCITY (reply env i));
                    CFloat (TORQUE (reply env i));
                    CInt (MODE (reply env i));
                    CInt (FAULT (reply env i)) ])
               (seq 0 (length rows))
      /\ rows
         = map (fun i =>
                  map (fun name =>
                         default (CStr "")
                           (row_dict (sample env i) (desired_position (sample env i))
                                     (reply env i) !! name))
                      [ "time"; "desired_position"; "position"; "velocity";
                        "torque"; "mode"; "fault" ])
               (seq 0 (length rows))
  end.
Proof.
  destruct (run_views env fuel) as (mc & mr & _ & _ & _ & _ & Hcsv).
  cbv zeta in Hcsv.
  destruct Hcsv as [(-> & Hc & He) | ->]; [split; assumption|].
  split; [reflexivity|].
  rewrite length_map, length_seq.
  split; [reflexivity|].
  apply map_ext. intros i. vm_compute. reflexivity.
Qed.

(** ** Rows per iteration *)

(** C6, as amended.  An iteration that completes and goes round again
    wrote exactly one row, made of the seven fields in header order; the
    iteration that sends the stop command and leaves the loop wrote none;
    an iteration cut short by an exception wrote at most one; and no
    iteration has any other outcome. *)
Theorem C6_rows_per_iteration (env : Env) (start_s : Q) (w : World) :
  let r := loop_body (new_DictWriter main_fieldnames) start_s env w in
  let offset_s := env_clock env (w_ticks w) - start_s in
  match fst r with
  | Returned Continue =>
      stop_after offset_s = false
      /\ exists st : Telemetry,
           csv_lines (snd r)
           = csv_lines w
             ++ [[ CFloat offset_s; CFloat (desired_position offset_s);
                   CFloat (POSITION st); CFloat (VELOCITY st);
                   CFloat (TORQUE st); CInt (MODE st); CInt (FAULT st) ]]
  | Returned Break =>
      stop_after offset_s = true /\ csv_lines (snd r) = csv_lines w
  | Raised _ =>
      csv_lines (snd r) = csv_lines w
      \/ exists row, csv_lines (snd r) = csv_lines w ++ [row]
  | OutOfFuel => False
  end.
Proof.
  cbv zeta. unfold loop_body. run_monad.
  destruct (stop_after (env_clock env (w_ticks w) - start_s)) eqn:Hstop.
  - run_monad.
    destruct (env_fault env (w_ops w)) eqn:F1; cbn.
    + left. now count_rows.
    + destruct (env_fault env (S (w_ops w))) eqn:F2; cbn.
      * left. now count_rows.
      * split; [reflexivity|]. now count_rows.
  - run_monad.
    destruct (env_fault env (w_ops w)) eqn:F1; cbn.
    + left. now count_rows.
    + unfold writerow. rewrite dict_to_list_row. run_monad.
      destruct (env_fault env (S (w_ops w))) eqn:F2; cbn.
      * left. now count_rows.
      * destruct (env_fault env (S (S (w_ops w)))) eqn:F3; cbn.
        -- right. eexists. now count_rows.
        -- split; [reflexivity|].
           exists (env_telemetry env (w_ops w)). now count_rows.
Qed.

(** C6, as stated, fails: the last iteration of the run of [coarse_env]
    reads an elapsed time of 15 s, sends the stop command, leaves the loop
    and returns normally without having written a row. *)
Lemma C6_final_iteration_writes_no_row :
  let w := head_world coarse_env "data.csv" 2 in
  let r := loop_body (new_DictWriter main_fieldnames) (env_clock coarse_env O)
             coarse_env w in
  fst r = Returned Break
  /\ length (csv_lines (snd r)) = length (csv_lines w)
  /\ length (csv_lines (snd r)) <> S (length (csv_lines w)).
Proof.
  cbv zeta. split; [vm_compute; reflexivity|].
  split; [vm_compute; reflexivity | vm_compute; discriminate].
Qed.

(** ** The command line *)

Lemma main_parser_actions : actions main_parser = [help_action; output_action].
Proof. reflexivity. Qed.

Lemma option_tuples_in (p : Parser) (word : string) (a : Action) (x : option string) :
  In (a, x) (option_tuples p word) -> In a (actions p).
Proof.
  unfold option_tuples.
  destruct (String.prefix "--" word).
  - destruct (split_at "=" word) as [option_prefix explicit_arg].
    intros H. apply in_flat_map in H as (a' & Ha' & H).
    apply in_flat_map in H as (os & _ & H).
    destruct (String.prefix option_prefix os); [|contradiction].
    destruct H as [[= <- _]|[]]. exact Ha'.
  - intros H. apply in_flat_map in H as (a' & Ha' & H).
    apply in_flat_map in H as (os & _ & H).
    destruct (String.eqb os _).
    + destruct H as [[= <- _]|[]]. exact Ha'.
    + destruct (String.prefix word os); [|contradiction].
      destruct H as [[= <- _]|[]]. exact Ha'.
Qed.

(** A word is only ever resolved to an action the parser holds. *)
Lemma parse_optional_matched_in (p : Parser) (word : string) (a : Action)
    (x : option string) :
  parse_optional p word = Matched a x -> In a (actions p).
Proof.
  unfold parse_optional.
  destruct word as [|c word']; [discriminate|].
  destruct (negb (Ascii.eqb c "-")); [discriminate|].
  destruct (List.find (has_option_string (String c word')) (actions p))
    as [a1|] eqn:Hexact.
  { intros [= <- _]. now apply find_some in Hexact. }
  destruct (String.length (String c word') =? 1)%nat; [discriminate|].
  destruct (split_at "=" (String c word')) as [option_string explicit_arg].
  assert (Htuples :
    match option_tuples p (String c word') with
    | [] =>
        if negative_number_like (String c word')
           && negb (existsb (fun a => existsb negative_number_like (option_strings a))
                            (actions p))
        then Positional
        else if contains_char " " (String c word') then Positional else Unknown
    | [(a0, explicit)] => Matched a0 explicit
    | (a0, explicit) :: _ :: _ => Ambiguous
    end = Matched a x -> In a (actions p)).
  { destruct (option_tuples p (String c word')) as [|[a0 x0] [|t l]] eqn:Ht.
    - destruct (_ && _); [discriminate|]. destruct (contains_char _ _); discriminate.
    - intros [= <- <-]. apply (option_tuples_in p (String c word') a0 x0).
      rewrite Ht. now left.
    - discriminate. }
  destruct explicit_arg as [v|]; [|exact Htuples].
  destruct (List.find (has_option_string option_string) (actions p))
    as [a2|] eqn:Hsplit; [|exact Htuples].
  intros [= <- _]. now apply find_some in Hsplit.
Qed.

(** Without a word that resolves to the output option, a command line
    leaves the default in place or ends the script with [SystemExit]. *)
Lemma consume_without_output (argv : list string) :
  forall (ns : gmap string string) (extras : list string),
  Forall (fun word => forall x, parse_optional main_parser word <> Matched output_action x) argv ->
  ns !! "output" = Some "data.csv" ->
  match consume main_parser argv ns extras with
  | inr ns' => ns' !! "output" = Some "data.csv"
  | inl e => exists code, e = SystemExit code
  end.
Proof.
  induction argv as [|word rest IH]; intros ns extras Hall Hns.
  - cbn. destruct extras; [exact Hns | eauto].
  - apply Forall_cons in Hall as [Hword Hrest].
    cbn [consume].
    destruct (String.eqb word "--"); [eauto|].
    destruct (parse_optional main_parser word) as [| | |a x] eqn:Hres;
      [now apply IH | now apply IH | eauto |].
    apply parse_optional_matched_in in Hres as Hin.
    rewrite main_parser_actions in Hin.
    destruct Hin as [<-|[<-|[]]].
    + cbn. destruct x; eauto.
    + exfalso. exact (Hword x eq_refl).
Qed.

Lemma output_path_selected (flag path : string) :
  flag = "--output" \/ flag = "-o" ->
  String.prefix "-" path = false ->
  output_path [flag; path] = inr path.
Proof.
  intros Hflag Hpath.
  assert (Hpos : parse_optional main_parser path = Positional).
  { destruct path as [|c path']; [reflexivity|].
    unfold parse_optional. cbn in Hpath.
    destruct (Ascii.eqb c "-") eqn:Hc; [|reflexivity].
    apply Ascii.eqb_eq in Hc as ->. cbn in Hpath.
    destruct path'; discriminate. }
  assert (Hdashes : String.eqb path "--" = false).
  { destruct path as [|c path']; [reflexivity|].
    cbn in Hpath |- *.
    destruct (Ascii.eqb c "-") eqn:Hc; [|reflexivity].
    apply Ascii.eqb_eq in Hc as ->. cbn in Hpath. destruct path'; discriminate. }
  unfold output_path.
  destruct Hflag as [-> | ->].
  - change (consume main_parser ["--output"; path] (initial_namespace main_parser) [])
      with (match parse_optional main_parser path with
            | Positional =>
                if String.eqb path "--" then inl (SystemExit 2)
                else consume main_parser []
                       (<["output" := path]> (initial_namespace main_parser)) []
            | _ => inl (SystemExit 2)
            end).
    rewrite Hpos, Hdashes. cbn [consume]. now rewrite lookup_insert_eq.
  - change (consume main_parser ["-o"; path] (initial_namespace main_parser) [])
      with (match parse_optional main_parser path with
            | Positional =>
                if String.eqb path "--" then inl (SystemExit 2)
                else consume main_parser []
                       (<["output" := path]> (initial_namespace main_parser)) []
            | _ => inl (SystemExit 2)
            end).
    rewrite Hpos, Hdashes. cbn [consume]. now rewrite lookup_insert_eq.
Qed.

(** The first thing a run does, once the command line is accepted and
    unless [open] itself raises, is to open the selected path for
    writing. *)
Lemma run_opens_output (env : Env) (fuel : nat) (path : string) :
  output_path (env_argv env) = inr path ->
  env_fault env 0 = None ->
  head (w_log (snd (run env fuel))) = Some (EvOpen path "w").
Proof.
  intros Hpath Hopen.
  destruct (run_has_shape env fuel)
    as [e He | path' j e Hp Hj He | path' m o tail Hp Hq Hm Hbefore Hend Hdiv].
  - congruence.
  - assert (path' = path) as -> by congruence.
    destruct j as [|j]; [congruence | reflexivity].
  - assert (path' = path) as -> by congruence. reflexivity.
Qed.

(** C7, as amended.  The parser holds exactly two optional arguments: the
    built-in help of [argparse] and the one the script declares, spelled
    [--output] or [-o], which selects the output path and defaults to
    [data.csv].  A command line none of whose words resolves to the
    output option leaves the path at [data.csv] (or ends the script with
    [SystemExit]), and that is the path the run opens. *)
Theorem C7_command_line :
  actions main_parser = [help_action; output_action]
  /\ (forall word a x,
        parse_optional main_parser word = Matched a x ->
        a = help_action \/ a = output_action)
  /\ output_path [] = inr "data.csv"
  /\ (forall argv,
        Forall (fun word =>
                  forall x, parse_optional main_parser word <> Matched output_action x) argv ->
        output_path argv = inr "data.csv"
        \/ exists code, output_path argv = inl (SystemExit code))
  /\ (forall flag path,
        flag = "--output" \/ flag = "-o" ->
        String.prefix "-" path = false ->
        output_path [flag; path] = inr path)
  /\ (forall env fuel path,
        output_path (env_argv env) = inr path ->
        env_fault env 0 = None ->
        head (w_log (snd (run env fuel))) = Some (EvOpen path "w")).
Proof.
  split; [reflexivity|]. split; [|split; [reflexivity|split; [|split]]].
  - intros word a x H. apply parse_optional_matched_in in H.
    rewrite main_parser_actions in H. destruct H as [<-|[<-|[]]]; auto.
  - intros argv Hall. unfold output_path.
    pose proof (consume_without_output argv (initial_namespace main_parser) [] Hall
                  eq_refl) as H.
    destruct (consume main_parser argv (initial_namespace main_parser) [])
      as [e|ns].
    + right. destruct H as [code ->]. eauto.
    + left. now rewrite H.
  - exact output_path_selected.
  - exact run_opens_output.
Qed.

Lemma C7_command_line_witness :
  Forall (fun word =>
            forall x, parse_optional main_parser word <> Matched output_action x)
         ["--verbose"]
  /\ (output_path ["--verbose"] = inr "data.csv"
      \/ exists code, output_path ["--verbose"] = inl (SystemExit code)).
Proof.
  assert (H : Forall (fun word =>
                forall x, parse_optional main_parser word <> Matched output_action x)
              ["--verbose"]).
  { repeat constructor. intros x. vm_compute. discriminate. }
  split; [exact H|].
  exact (proj1 (proj2 (proj2 (proj2 C7_command_line))) ["--verbose"] H).
Defined.

(** C7, as stated, fails: besides the output option the parser resolves
    [-h] and [--help], and the script then exits with status 0 instead of
    rejecting the word as it rejects an undefined flag. *)
Lemma C7_help_flag_is_accepted :
  parse_optional main_parser "--help" = Matched help_action None
  /\ parse_optional main_parser "-h" = Matched help_action None
  /\ help_action <> output_action
  /\ output_path ["--help"] = inl (SystemExit 0)
  /\ output_path ["--verbose"] = inl (SystemExit 2).
Proof.
  repeat split; try (vm_compute; reflexivity). discriminate.
Qed.

(** ** Exceptions *)

Lemma quiet_iterations (env : Env) (l : list nat) :
  Forall quiet (flat_map (iteration_events env) l).
Proof.
  induction l as [|i l IH]; [constructor|].
  cbn [flat_map]. apply Forall_app. split; [|exact IH].
  cbn. repeat constructor.
Qed.

Lemma quiet_prelude (path : string) (j : nat) :
  Forall quiet (take j (prelude_events path)).
Proof.
  destruct j as [|[|[|[|[|j]]]]]; cbn; repeat constructor.
Qed.

Lemma quiet_not_raised (l : list Event) (e : Exn) :
  Forall quiet l -> ~ In (EvRaised e) l.
Proof.
  intros Hq Hin. rewrite Forall_forall in Hq.
  apply list_elem_of_In in Hin. exact (Hq _ Hin).
Qed.

(** A run either never raises, or raises once, as the last thing it
    does, and ends with that exception. *)
Lemma run_raises_last (env : Env) (fuel : nat) :
  (Forall quiet (w_log (snd (run env fuel)))
   /\ forall e, fst (run env fuel) <> Raised e)
  \/ exists before e,
       w_log (snd (run env fuel)) = before ++ [EvRaised e]
       /\ Forall quiet before
       /\ fst (run env fuel) = Raised e.
Proof.
  destruct (run_has_shape env fuel)
    as [e He | path j e Hp Hj He | path m o tail Hp Hq Hm Hbefore Hend Hdiv].
  - right. exists [], e. repeat split. constructor.
  - right. exists (take j (prelude_events path)), e.
    repeat split. apply quiet_prelude.
  - pose proof (quiet_prelude path 4) as Hpre. cbn [take prelude_events] in Hpre.
    pose proof (quiet_iterations env (seq 0 m)) as Hit.
    inversion Hend as [Hs | e Hs He | e Hs He | e Hs He | e Hs He | e Hs He |]; subst.
    + left. split; [|discriminate].
      repeat (apply Forall_app; split); try assumption; cbn; repeat constructor.
    + right. exists (prelude_events path ++ flat_map (iteration_events env) (seq 0 m)), e.
      split; [now rewrite <- app_assoc|]. split; [|reflexivity].
      apply Forall_app; split; assumption.
    + right.
      exists (prelude_events path ++ flat_map (iteration_events env) (seq 0 m)
              ++ [EvCommand SetStop]), e.
      split; [now rewrite <- !app_assoc|]. split; [|reflexivity].
      repeat (apply Forall_app; split); try assumption; cbn; repeat constructor.
    + right. exists (prelude_events path ++ flat_map (iteration_events env) (seq 0 m)), e.
      split; [now rewrite <- app_assoc|]. split; [|reflexivity].
      apply Forall_app; split; assumption.
    + right.
      exists (prelude_events path ++ flat_map (iteration_events env) (seq 0 m)
              ++ [EvCommand (command_of env m)]), e.
      split; [now rewrite <- !app_assoc|]. split; [|reflexivity].
      repeat (apply Forall_app; split); try assumption; cbn; repeat constructor.
    + right.
      exists (prelude_events path ++ flat_map (iteration_events env) (seq 0 m)
              ++ [EvCommand (command_of env m); EvWrite (data_row env m)]), e.
      split; [now rewrite <- !app_assoc|]. split; [|reflexivity].
      repeat (apply Forall_app; split); try assumption; cbn; repeat constructor.
    + left. split; [|discriminate].
      rewrite app_nil_r. apply Forall_app; split; assumption.
Qed.

(** C8.  Nothing in [main] catches, retries or recovers: when any
    operation raises [e], the run ends with [e]; the raise is the last
    event of the run and the only raise in it; so the rows of the file and
    the commands the device saw are exactly those from before the
    failure. *)
Theorem C8_exceptions_propagate (env : Env) (fuel : nat) (e : Exn) :
  In (EvRaised e) (w_log (snd (run env fuel))) ->
  fst (run env fuel) = Raised e
  /\ exists before : list Event,
       w_log (snd (run env fuel)) = before ++ [EvRaised e]
       /\ (forall e', ~ In (EvRaised e') before)
       /\ csv_lines (snd (run env fuel)) = written before
       /\ commands (snd (run env fuel)) = sent before.
Proof.
  intros Hin.
  destruct (run_raises_last env fuel) as [[Hq _] | (before & e0 & Hlog & Hq & Ho)].
  - exfalso. exact (quiet_not_raised _ e Hq Hin).
  - rewrite Hlog in Hin. apply in_app_or in Hin as [Hin | [[= ->] | []]].
    + exfalso. exact (quiet_not_raised _ e Hq Hin).
    + split; [exact Ho|]. exists before.
      split; [exact Hlog|]. split; [intros e'; now apply quiet_not_raised|].
      unfold csv_lines, commands. rewrite Hlog, written_app, sent_app.
      cbn. now rewrite !app_nil_r.
Qed.

Lemma C8_exceptions_propagate_witness :
  In (EvRaised (RuntimeError "timeout")) (w_log (snd (run faulty_env 20)))
  /\ fst (run faulty_env 20) = Raised (RuntimeError "timeout")
  /\ exists before : list Event,
       w_log (snd (run faulty_env 20)) = before ++ [EvRaised (RuntimeError "timeout")]
       /\ (forall e', ~ In (EvRaised e') before)
       /\ csv_lines (snd (run faulty_env 20)) = written before
       /\ commands (snd (run faulty_env 20)) = sent before.
Proof.
  assert (H : In (EvRaised (RuntimeError "timeout")) (w_log (snd (run faulty_env 20)))).
  { vm_compute. do 8 right. left. reflexivity. }
  split; [exact H|].
  exact (C8_exceptions_propagate faulty_env 20 (RuntimeError "timeout") H).
Defined.

(** ** The constants *)






(** ** Consistency and monotonicity of the rows *)

Lemma time_of_data_row (env : Env) (i : nat) :
  float_under "time" (data_row env i) = Some (sample env i).
Proof. reflexivity. Qed.

Lemma desired_of_data_row (env : Env) (i : nat) :
  float_under "desired_position" (data_row env i)
  = Some (desired_position (sample env i)).
Proof. reflexivity. Qed.

Lemma sample_mono (env : Env) (i : nat) :
  (forall n, env_clock env n <= env_clock env (S n)) ->
  sample env i <= sample env (S i).
Proof.
  intros Hclock. unfold sample.
  apply Qplus_le_compat; [apply Hclock | apply Qle_refl].
Qed.

(** The data rows of a run: the lines after the header. *)
Lemma run_data_rows (env : Env) (fuel : nat) :
  exists mr, tail (csv_lines (snd (run env fuel))) = map (data_row env) (seq 0 mr).
Proof.
  destruct (run_views env fuel) as (mc & mr & _ & _ & _ & _ & Hcsv).
  cbv zeta in Hcsv. destruct Hcsv as [(-> & _) | ->].
  - now exists 0%nat.
  - now exists mr.
Qed.

(** C10.  With a clock that never runs backwards, every data row of the
    file is consistent, its [desired_position] being [floor(time / T) / D]
    of its own [time], and from each row to the next neither [time] nor
    [desired_position] decreases. *)
Theorem C10_rows_consistent_and_monotone (env : Env) (fuel : nat) :
  (forall n, env_clock env n <= env_clock env (S n)) ->
  let rows := tail (csv_lines (snd (run env fuel))) in
  Forall (fun row =>
            exists t d : Q,
              float_under "time" row = Some t
              /\ float_under "desired_position" row = Some d
              /\ d = inject_Z (Qfloor (t / STEP_TIME_S)) / inject_Z STEP_DIVISIONS)
         rows
  /\ forall (i : nat) (r1 r2 : list Cell) (t1 t2 d1 d2 : Q),
       rows !! i = Some r1 ->
       rows !! S i = Some r2 ->
       float_under "time" r1 = Some t1 ->
       float_under "time" r2 = Some t2 ->
       float_under "desired_position" r1 = Some d1 ->
       float_under "desired_position" r2 = Some d2 ->
       t1 <= t2 /\ d1 <= d2.
Proof.
  intros Hclock. cbv zeta.
  destruct (run_data_rows env fuel) as [mr ->].
  split.
  - apply Forall_forall. intros row Hrow.
    apply list_elem_of_fmap in Hrow as (i & -> & _).
    exists (sample env i), (desired_position (sample env i)).
    repeat split.
  - intros i r1 r2 t1 t2 d1 d2 H1 H2 Ht1 Ht2 Hd1 Hd2.
    apply list_lookup_fmap_Some in H1 as (j1 & -> & Hj1).
    apply list_lookup_fmap_Some in H2 as (j2 & -> & Hj2).
    apply lookup_seq in Hj1 as [-> _]. apply lookup_seq in Hj2 as [-> _].
    cbn [Nat.add] in *.
    rewrite time_of_data_row in Ht1, Ht2.
    rewrite desired_of_data_row in Hd1, Hd2.
    injection Ht1 as <-. injection Ht2 as <-.
    injection Hd1 as <-. injection Hd2 as <-.
    pose proof (sample_mono env i Hclock) as Hs.
    split; [exact Hs | now apply desired_position_mono].
Qed.

Lemma coarse_clock_mono (n : nat) : coarse_clock n <= coarse_clock (S n).
Proof.
  unfold coarse_clock.
  apply Qmult_le_compat_r; [|discriminate].
  rewrite <- Zle_Qle. lia.
Qed.

Lemma C10_rows_consistent_and_monotone_witness :
  (forall n, env_clock coarse_env n <= env_clock coarse_env (S n))
  /\ let rows := tail (csv_lines (snd (run coarse_env 5))) in
     Forall (fun row =>
               exists t d : Q,
                 float_under "time" row = Some t
                 /\ float_under "desired_position" row = Some d
                 /\ d = inject_Z (Qfloor (t / STEP_TIME_S)) / inject_Z STEP_DIVISIONS)
            rows
     /\ forall (i : nat) (r1 r2 : list Cell) (t1 t2 d1 d2 : Q),
          rows !! i = Some r1 ->
          rows !! S i = Some r2 ->
          float_under "time" r1 = Some t1 ->
          float_under "time" r2 = Some t2 ->
          float_under "desired_position" r1 = Some d1 ->
          float_under "desired_position" r2 = Some d2 ->
          t1 <= t2 /\ d1 <= d2.
Proof.
  split; [exact coarse_clock_mono|].
  exact (C10_rows_consistent_and_monotone coarse_env 5 coarse_clock_mono).
Defined.

(** ** Counting plateaus *)







(** * Further properties of the script *)

(** ** The command line, continued *)



(** The scan of the command line keeps the [output] attribute in the
    namespace and only ever exits with status 0 or 2. *)
Lemma consume_exit_codes (n : nat) :
  forall (argv : list string) (ns : gmap string string) (extras : list string),
  (length argv <= n)%nat ->
  is_Some (ns !! "output") ->
  match consume main_parser argv ns extras with
  | inl e => e = SystemExit 0 \/ e = SystemExit 2
  | inr ns' => is_Some (ns' !! "output")
  end.
Proof.
  induction n as [|n IH]; intros argv ns extras Hlen Hns.
  - destruct argv; [|cbn in Hlen; lia].
    cbn. destruct extras; auto.
  - destruct argv as [|word rest].
    { cbn. destruct extras; auto. }
    cbn [length] in Hlen. cbn [consume].
    destruct (String.eqb word "--"); [auto|].
    destruct (parse_optional main_parser word) as [| | |a x] eqn:Hres;
      [apply IH; [lia|assumption] | apply IH; [lia|assumption] | auto |].
    apply parse_optional_matched_in in Hres as Hin.
    rewrite main_parser_actions in Hin.
    destruct Hin as [<-|[<-|[]]].
    + cbn. destruct x; auto.
    + cbn [kind output_action dest].
      destruct x as [v|].
      * apply IH; [lia|]. rewrite lookup_insert_eq. eauto.
      * destruct rest as [|v rest']; [auto|].
        destruct (parse_optional main_parser v); auto.
        destruct (String.eqb v "--"); [auto|].
        apply IH; [cbn [length] in Hlen; lia|].
        rewrite lookup_insert_eq. eauto.
Qed.

(** X2.  The command line can end the script only with exit status 0
    (help) or 2 (usage error); in particular reading [args.output] never
    fails. *)
Theorem command_line_exit_codes (argv : list string) (e : Exn) :
  output_path argv = inl e -> e = SystemExit 0 \/ e = SystemExit 2.
Proof.
  unfold output_path. intros H.
  pose proof (consume_exit_codes (length argv) argv (initial_namespace main_parser) []
                (Nat.le_refl _)) as Hc.
  assert (Hinit : is_Some (initial_namespace main_parser !! "output"))
    by (exists "data.csv"; reflexivity).
  specialize (Hc Hinit).
  destruct (consume main_parser argv (initial_namespace main_parser) []) as [e'|ns].
  - injection H as <-. exact Hc.
  - destruct Hc as [path Hpath]. rewrite Hpath in H. discriminate.
Qed.

Lemma command_line_exit_codes_witness :
  output_path ["--verbose"] = inl (SystemExit 2)
  /\ (SystemExit 2 = SystemExit 0 \/ SystemExit 2 = SystemExit 2).
Proof.
  assert (H : output_path ["--verbose"] = inl (SystemExit 2))
    by (vm_compute; reflexivity).
  split; [exact H|].
  exact (command_line_exit_codes ["--verbose"] (SystemExit 2) H).
Defined.

(** X3.  The spelling [--output=PATH] selects [PATH], whatever it is. *)
Theorem output_path_equals_form (path : string) :
  output_path [String.append "--output=" path] = inr path.
Proof.
  unfold output_path.
  assert (Hres : parse_optional main_parser (String.append "--output=" path)
                 = Matched output_action (Some path)).
  { cbn. reflexivity. }
  cbn [consume].
  assert (Hd : String.eqb (String.append "--output=" path) "--" = false) by reflexivity.
  rewrite Hd, Hres. cbn [kind output_action dest consume].
  now rewrite lookup_insert_eq.
Qed.

(** ** What the device sees *)

(** The commands of any run: nothing, or the opening stop, or stop and
    re-zero followed by the set-position commands of the first [n]
    samples and at most one closing stop. *)
Lemma run_commands (env : Env) (fuel : nat) :
  (commands (snd (run env fuel)) = [] \/ commands (snd (run env fuel)) = [SetStop])
  \/ exists (n : nat) (final : list Command),
       commands (snd (run env fuel))
       = [SetStop; SetRezero] ++ map (command_of env) (seq 0 n) ++ final
       /\ (final = [] \/ final = [SetStop])
       /\ (forall i, (i < n)%nat -> stop_after (sample env i) = false).
Proof.
  unfold commands.
  destruct (run_has_shape env fuel)
    as [e He | path j e Hp Hj He | path m o tail Hp Hq Hm Hbefore Hend Hdiv].
  - left. left. reflexivity.
  - destruct j as [|[|[|[|j]]]]; try lia; cbn.
    + left. left. reflexivity.
    + left. left. reflexivity.
    + left. left. reflexivity.
    + left. right. reflexivity.
  - right. rewrite !sent_app, sent_iterations.
    change (sent (prelude_events path)) with [SetStop; SetRezero].
    inversion Hend; subst; cbn [sent omap list_omap].
    1,3: exists m, [SetStop]; split; [reflexivity|]; split; [now right|exact Hbefore].
    1,2,5: exists m, []; split; [reflexivity|]; split; [now left|exact Hbefore].
    all: exists (S m), []; rewrite seq_S, map_app, <- !app_assoc;
      (split; [reflexivity|]); (split; [now left|]);
      intros i Hi; destruct (decide (i = m)) as [->|]; [assumption|];
      apply Hbefore; lia.
Qed.

(** X4.  The device never sees a set-position command before the opening
    stop and re-zero, sees the re-zero at most once, and sees a second
    stop only as the very last command. *)
Theorem device_command_order (env : Env) (fuel : nat) :
  exists (k n : nat) (final : list Command),
    commands (snd (run env fuel))
    = take k [SetStop; SetRezero] ++ map (command_of env) (seq 0 n) ++ final
    /\ (final = [] \/ final = [SetStop])
    /\ (k = 2%nat \/ n = 0%nat /\ final = []).
Proof.
  destruct (run_commands env fuel) as [[H|H] | (n & final & H & Hfinal & _)].
  - exists 0%nat, 0%nat, []. rewrite H. split; [reflexivity|]. split; auto.
  - exists 1%nat, 0%nat, []. rewrite H. split; [reflexivity|]. split; auto.
  - exists 2%nat, n, final. rewrite H. split; [reflexivity|].
    split; [exact Hfinal | now left].
Qed.

(** X5.  Every set-position command of every run overrides the limits
    with an acceleration limit of 2, a velocity limit of 5, and asks for
    the state in reply. *)
Theorem set_position_limits (env : Env) (fuel : nat)
    (p accel_limit velocity_limit : Q) (query : bool) :
  In (SetPosition p accel_limit velocity_limit query) (commands (snd (run env fuel))) ->
  accel_limit = 2 /\ velocity_limit = 5 /\ query = true
  /\ exists i, p = desired_position (sample env i).
Proof.
  intros Hin.
  destruct (run_commands env fuel) as [[H|H] | (n & final & H & Hfinal & _)];
    rewrite H in Hin.
  - destruct Hin.
  - destruct Hin as [Hin|[]]. discriminate.
  - apply in_app_or in Hin as [Hin|Hin].
    { destruct Hin as [Hin|[Hin|[]]]; discriminate. }
    apply in_app_or in Hin as [Hin|Hin].
    + apply in_map_iff in Hin as (i & Hi & _).
      injection Hi as <- <- <- <-. repeat split. now exists i.
    + destruct Hfinal as [-> | ->]; [destruct Hin|].
      destruct Hin as [Hin|[]]. discriminate.
Qed.

Lemma set_position_limits_witness :
  In (SetPosition (2 # 6) 2 5 true) (commands (snd (run coarse_env 5)))
  /\ 2 = 2 /\ 5 = 5 /\ true = true
  /\ exists i, 2 # 6 = desired_position (sample coarse_env i).
Proof.
  assert (H : In (SetPosition (2 # 6) 2 5 true) (commands (snd (run coarse_env 5)))).
  { vm_compute. do 2 right. left. reflexivity. }
  split; [exact H|].
  exact (set_position_limits coarse_env 5 (2 # 6) 2 5 true H).
Defined.

(** ** How a run ends *)

(** X6.  A run that returns normally went through [n] complete
    iterations, all at elapsed times of at most [T * (D + 1)], met an
    elapsed time above it in the next one, and did nothing else: the
    device saw stop, re-zero, [n] set-position commands and a final stop;
    the file holds the header and [n] rows; the console ends with the bare
    newline. *)
Theorem normal_return (env : Env) (fuel : nat) :
  fst (run env fuel) = Returned tt ->
  exists n : nat,
    stop_threshold < sample env n
    /\ (forall i, (i < n)%nat -> sample env i <= stop_threshold)
    /\ commands (snd (run env fuel))
       = [SetStop; SetRezero] ++ map (command_of env) (seq 0 n) ++ [SetStop]
    /\ csv_lines (snd (run env fuel)) = header_row :: map (data_row env) (seq 0 n)
    /\ printed (w_log (snd (run env fuel)))
       = map (status_of env) (seq 0 n) ++ [Newline]
    /\ (exists path, opened (w_log (snd (run env fuel))) = [(path, "w")]).
Proof.
  intros Hret. unfold commands, csv_lines.
  destruct (run_has_shape env fuel)
    as [e He | path j e Hp Hj He | path m o tail Hp Hq Hm Hbefore Hend Hdiv];
    try discriminate.
  inversion Hend as [Hs | | | | | |]; subst; try discriminate.
  exists m. split; [now apply stop_after_true|].
  split; [intros i Hi; now apply stop_after_false, Hbefore|].
  rewrite !sent_app, sent_iterations, !written_app, written_iterations.
  split; [reflexivity|]. split; [cbn; now rewrite app_nil_r|].
  unfold printed, opened. rewrite !omap_app. split.
  - cbn [prelude_events omap list_omap app].
    f_equal. clear. induction (seq 0 m) as [|i l IH]; [reflexivity|].
    cbn [flat_map map]. rewrite omap_app, IH. reflexivity.
  - exists path. cbn [prelude_events omap list_omap app].
    replace (omap _ (flat_map (iteration_events env) (seq 0 m))) with (@nil (string * string)).
    + reflexivity.
    + clear. induction (seq 0 m) as [|i l IH]; [reflexivity|].
      cbn [flat_map]. rewrite omap_app, <- IH. reflexivity.
Qed.

Lemma normal_return_witness :
  fst (run coarse_env 5) = Returned tt
  /\ exists n : nat,
       stop_threshold < sample coarse_env n
       /\ (forall i, (i < n)%nat -> sample coarse_env i <= stop_threshold)
       /\ commands (snd (run coarse_env 5))
          = [SetStop; SetRezero] ++ map (command_of coarse_env) (seq 0 n) ++ [SetStop]
       /\ csv_lines (snd (run coarse_env 5))
          = header_row :: map (data_row coarse_env) (seq 0 n)
       /\ printed (w_log (snd (run coarse_env 5)))
          = map (status_of coarse_env) (seq 0 n) ++ [Newline]
       /\ (exists path, opened (w_log (snd (run coarse_env 5))) = [(path, "w")]).
Proof.
  assert (H : fst (run coarse_env 5) = Returned tt) by (vm_compute; reflexivity).
  split; [exact H|].
  exact (normal_return coarse_env 5 H).
Defined.

(** Once the command line is accepted and the four operations before
    the loop succeed, the run is the loop started at its first head. *)
Lemma run_enters_loop (env : Env) (fuel : nat) (path : string) :
  output_path (env_argv env) = inr path ->
  (forall k, (k < 4)%nat -> env_fault env k = None) ->
  run env fuel
  = while_true fuel (loop_body (new_DictWriter main_fieldnames) (env_clock env O))
      env (head_world env path 0).
Proof.
  intros Hpath Hq. unfold output_path in Hpath.
  unfold run, main. cbv zeta. fold main_parser.
  unfold mbind at 1. unfold M_bind at 1. unfold parse_args.
  destruct (consume main_parser (env_argv env) (initial_namespace main_parser) [])
    as [e|ns]; [discriminate|].
  unfold mbind at 1. unfold M_bind at 1. unfold getattr.
  destruct (ns !! "output") as [path'|]; [|discriminate].
  injection Hpath as ->.
  rewrite writeheader_main. run_prims.
  rewrite (Hq 0%nat) by lia. run_prims.
  rewrite (Hq 1%nat) by lia. run_prims.
  rewrite (Hq 2%nat) by lia. run_prims.
  rewrite (Hq 3%nat) by lia. run_prims.
  reflexivity.
Qed.

(** As long as nothing raises and no sample meets the stop condition, the
    loop goes from head to head. *)
Lemma loop_keeps_going (env : Env) (path : string) (fuel : nat) : forall n : nat,
  (forall k, env_fault env k = None) ->
  (forall i, (n <= i < n + fuel)%nat -> stop_after (sample env i) = false) ->
  while_true fuel (loop_body (new_DictWriter main_fieldnames) (env_clock env O))
    env (head_world env path n)
  = (OutOfFuel, head_world env path (n + fuel)).
Proof.
  induction fuel as [|fuel IH]; intros n Hquiet Hnostop.
  - rewrite Nat.add_0_r. reflexivity.
  - rewrite while_true_S.
    pose proof (loop_body_head env path n) as Hbody. cbv zeta in Hbody.
    destruct (loop_body (new_DictWriter main_fieldnames) (env_clock env 0) env
                (head_world env path n)) as [[[|]|e|] w'];
      cbn [fst snd] in Hbody.
    + destruct Hbody as [_ ->]. rewrite IH.
      * do 2 f_equal. lia.
      * exact Hquiet.
      * intros i Hi. apply Hnostop. lia.
    + destruct Hbody as (tail & Hend & _).
      inversion Hend as [Hs | | | | | |]; subst.
      rewrite Hnostop in Hs by lia. discriminate.
    + destruct Hbody as (tail & Hend & _).
      inversion Hend as [| e0 Hs He | e0 Hs He | e0 Hs He | e0 Hs He | e0 Hs He |];
        subst; rewrite Hquiet in He; discriminate.
    + contradiction.
Qed.

(** X7.  The loop has no other way out than the elapsed time: while the
    sampled elapsed times stay at or below [T * (D + 1)] and nothing
    raises, it keeps commanding and logging, one row per iteration, for
    as many iterations as it is given. *)
Theorem loop_runs_while_below_threshold (env : Env) (path : string) (fuel : nat) :
  output_path (env_argv env) = inr path ->
  (forall k, env_fault env k = None) ->
  (forall i, (i < fuel)%nat -> sample env i <= stop_threshold) ->
  fst (run env fuel) = OutOfFuel
  /\ csv_lines (snd (run env fuel)) = header_row :: map (data_row env) (seq 0 fuel)
  /\ commands (snd (run env fuel))
     = [SetStop; SetRezero] ++ map (command_of env) (seq 0 fuel).
Proof.
  intros Hpath Hquiet Hbelow.
  rewrite (run_enters_loop env fuel path Hpath) by (intros; apply Hquiet).
  rewrite (loop_keeps_going env path fuel 0 Hquiet).
  - cbn [fst snd Nat.add]. unfold csv_lines, commands, head_world. cbn [w_log].
    rewrite sent_app, sent_iterations, written_app, written_iterations.
    repeat split.
  - intros i Hi. apply stop_after_false, Hbelow. lia.
Qed.

Lemma frozen_samples (i : nat) : sample frozen_env i <= stop_threshold.
Proof. discriminate. Qed.

Lemma loop_runs_while_below_threshold_witness :
  output_path (env_argv frozen_env) = inr "data.csv"
  /\ (forall k, env_fault frozen_env k = None)
  /\ (forall i, (i < 3)%nat -> sample frozen_env i <= stop_threshold)
  /\ fst (run frozen_env 3) = OutOfFuel
  /\ csv_lines (snd (run frozen_env 3))
     = header_row :: map (data_row frozen_env) (seq 0 3)
  /\ commands (snd (run frozen_env 3))
     = [SetStop; SetRezero] ++ map (command_of frozen_env) (seq 0 3).
Proof.
  assert (H1 : output_path (env_argv frozen_env) = inr "data.csv") by reflexivity.
  assert (H2 : forall k, env_fault frozen_env k = None) by reflexivity.
  assert (H3 : forall i, (i < 3)%nat -> sample frozen_env i <= stop_threshold)
    by (intros i _; apply frozen_samples).
  split; [exact H1|]. split; [exact H2|]. split; [exact H3|].
  exact (loop_runs_while_below_threshold frozen_env "data.csv" 3 H1 H2 H3).
Defined.

(** ** Rows, commands, console and pauses together *)

Lemma printed_iterations (env : Env) (l : list nat) :
  printed (flat_map (iteration_events env) l) = map (status_of env) l.
Proof.
  induction l as [|i l IH]; [reflexivity|].
  cbn [flat_map map]. unfold printed in *. rewrite omap_app, IH. reflexivity.
Qed.

Lemma slept_iterations (env : Env) (l : list nat) :
  slept (flat_map (iteration_events env) l) = repeat (1 # 100) (length l).
Proof.
  induction l as [|i l IH]; [reflexivity|].
  cbn [flat_map length repeat]. unfold slept in *. rewrite omap_app, IH. reflexivity.
Qed.

(** The tallies of any run: [m] complete iterations, each with its status
    line and pause; [mr] rows and [mc] set-position commands, which run
    ahead of [m] by at most one, and only in a run ended by an
    exception. *)
Lemma run_tallies (env : Env) (fuel : nat) :
  exists (m mr mc : nat) (final : list Console),
    slept (w_log (snd (run env fuel))) = repeat (1 # 100) m
    /\ printed (w_log (snd (run env fuel))) = map (status_of env) (seq 0 m) ++ final
    /\ (final = [] \/ final = [Newline] /\ fst (run env fuel) = Returned tt)
    /\ tail (csv_lines (snd (run env fuel))) = map (data_row env) (seq 0 mr)
    /\ setpoints (snd (run env fuel))
       = map (fun i => desired_position (sample env i)) (seq 0 mc)
    /\ (m <= mr <= mc)%nat /\ (mc <= S m)%nat
    /\ (mc <> m -> exists e, fst (run env fuel) = Raised e)
    /\ (forall i, (i < mc)%nat -> stop_after (sample env i) = false).
Proof.
  unfold setpoints, commands, csv_lines.
  destruct (run_has_shape env fuel)
    as [e He | path j e Hp Hj He | path m o evs Hp Hq Hm Hbefore Hend Hdiv].
  - exists 0%nat, 0%nat, 0%nat, []. cbn.
    repeat split; try lia; auto.
  - exists 0%nat, 0%nat, 0%nat, [].
    destruct j as [|[|[|[|j]]]]; try lia; cbn; repeat split; try lia; auto.
  - assert (Hsl : forall tl, slept tl = [] ->
             slept (prelude_events path ++ flat_map (iteration_events env) (seq 0 m) ++ tl)
             = repeat (1 # 100) m).
    { intros tl Htl. unfold slept in *. rewrite !omap_app.
      fold (slept (flat_map (iteration_events env) (seq 0 m))).
      rewrite slept_iterations, length_seq, Htl. cbn. now rewrite app_nil_r. }
    assert (Hpr : forall tl,
             printed (prelude_events path ++ flat_map (iteration_events env) (seq 0 m) ++ tl)
             = map (status_of env) (seq 0 m) ++ printed tl).
    { intros tl. unfold printed. rewrite !omap_app.
      fold (printed (flat_map (iteration_events env) (seq 0 m))).
      rewrite printed_iterations. reflexivity. }
    inversion Hend as [Hs | e Hs He | e Hs He | e Hs He | e Hs He | e Hs He |]; subst;
      rewrite Hsl by reflexivity; rewrite Hpr;
      rewrite !sent_app, sent_iterations, !written_app, written_iterations,
        !positions_app, positions_commands;
      cbn [prelude_events printed sent written omap list_omap positions app tail].
    + exists m, m, m, [Newline]. close_tally m Hbefore.
    + exists m, m, m, []. close_tally m Hbefore.
    + exists m, m, m, []. close_tally m Hbefore.
    + exists m, m, m, []. close_tally m Hbefore.
    + exists m, m, (S m), []. close_tally m Hbefore.
    + exists m, (S m), (S m), []. close_tally m Hbefore.
    + exists m, m, m, []. close_tally m Hbefore.
Qed.

(** X8.  The bounds the loop really keeps: a commanded position never
    exceeds [7/6]; it is non-negative when the elapsed time is; and when
    the clock was set back so that the elapsed time is negative, the
    command is negative too, at most [-1/6]. *)
Theorem setpoint_bounds (env : Env) (fuel i : nat) (p : Q) :
  setpoints (snd (run env fuel)) !! i = Some p ->
  p <= 7 # 6
  /\ (0 <= sample env i -> 0 <= p)
  /\ (sample env i < 0 -> p <= - (1 # 6)).
Proof.
  intros Hp. apply run_setpoint_lookup in Hp as [-> Hstop].
  apply stop_after_false in Hstop.
  destruct (step_index_bounds (sample env i)) as [Flo Fhi].
  unfold desired_position.
  split; [|split].
  - apply Qle_shift_div_r; [apply STEP_DIVISIONS_pos|].
    assert (H : (step_index (sample env i) <= step_index stop_threshold)%Z)
      by now apply step_index_mono.
    change (step_index stop_threshold) with 7%Z in H.
    apply Qle_trans with (inject_Z 7); [now rewrite <- Zle_Qle | discriminate].
  - intros H0. apply Qle_shift_div_l; [apply STEP_DIVISIONS_pos|].
    rewrite Qmult_0_l. change 0 with (inject_Z (step_index 0)).
    rewrite <- Zle_Qle. now apply step_index_mono.
  - intros Hneg. apply Qle_shift_div_r; [apply STEP_DIVISIONS_pos|].
    assert (H : inject_Z (step_index (sample env i)) < inject_Z 0).
    { apply Qmult_lt_r with (z := STEP_TIME_S); [apply STEP_TIME_S_pos|].
      eapply Qle_lt_trans; [exact Flo|]. now rewrite Qmult_0_l. }
    rewrite <- Zlt_Qlt in H.
    apply Qle_trans with (inject_Z (-1)); [rewrite <- Zle_Qle; lia | discriminate].
Qed.

Lemma setpoint_bounds_witness :
  setpoints (snd (run backward_env 3)) !! 0%nat = Some (-1 # 6)
  /\ -1 # 6 <= 7 # 6
  /\ (0 <= sample backward_env 0 -> 0 <= -1 # 6)
  /\ (sample backward_env 0 < 0 -> -1 # 6 <= - (1 # 6)).
Proof.
  assert (H : setpoints (snd (run backward_env 3)) !! 0%nat = Some (-1 # 6))
    by (vm_compute; reflexivity).
  split; [exact H|].
  exact (setpoint_bounds backward_env 3 0 (-1 # 6) H).
Defined.

(** X9.  Every data row logs the command of its own iteration: the
    [desired_position] field of the [i]-th row is the position of the
    [i]-th set-position command, its [time] field is the elapsed time
    sampled for it and is at most [T * (D + 1)], and its telemetry is the
    reply to that command. *)
Theorem row_logs_its_command (env : Env) (fuel i : nat) (row : list Cell) :
  tail (csv_lines (snd (run env fuel))) !! i = Some row ->
  exists t p : Q,
    float_under "time" row = Some t
    /\ float_under "desired_position" row = Some p
    /\ setpoints (snd (run env fuel)) !! i = Some p
    /\ t = sample env i
    /\ t <= stop_threshold
    /\ row = data_row env i.
Proof.
  intros Hrow.
  destruct (run_tallies env fuel)
    as (m & mr & mc & final & _ & _ & _ & Hrows & Hsp & Hle & _ & _ & Hbefore).
  rewrite Hrows in Hrow.
  apply list_lookup_fmap_Some in Hrow as (j & -> & Hj).
  apply lookup_seq in Hj as [-> Hlt]. cbn [Nat.add].
  exists (sample env i), (desired_position (sample env i)).
  split; [reflexivity|]. split; [reflexivity|]. split.
  - rewrite Hsp. apply list_lookup_fmap_Some. exists i. split; [reflexivity|].
    apply lookup_seq. split; [reflexivity | lia].
  - split; [reflexivity|]. split; [|reflexivity].
    apply stop_after_false, Hbefore. lia.
Qed.

Lemma row_logs_its_command_witness :
  tail (csv_lines (snd (run coarse_env 5))) !! 1%nat = Some (data_row coarse_env 1)
  /\ exists t p : Q,
       float_under "time" (data_row coarse_env 1) = Some t
       /\ float_under "desired_position" (data_row coarse_env 1) = Some p
       /\ setpoints (snd (run coarse_env 5)) !! 1%nat = Some p
       /\ t = sample coarse_env 1
       /\ t <= stop_threshold
       /\ data_row coarse_env 1 = data_row coarse_env 1.
Proof.
  assert (H : tail (csv_lines (snd (run coarse_env 5))) !! 1%nat
              = Some (data_row coarse_env 1)) by (vm_compute; reflexivity).
  split; [exact H|].
  exact (row_logs_its_command coarse_env 5 1 (data_row coarse_env 1) H).
Defined.

(** X10.  The file never runs ahead of the device and lags it by at most
    one command: the number of data rows is at most the number of
    set-position commands sent, which is at most one more; and a command
    is left without its row only in a run ended by an exception. *)
Theorem rows_lag_commands_by_at_most_one (env : Env) (fuel : nat) :
  let rows := tail (csv_lines (snd (run env fuel))) in
  let sps := setpoints (snd (run env fuel)) in
  (length rows <= length sps <= S (length rows))%nat
  /\ (length sps = length rows \/ exists e, fst (run env fuel) = Raised e).
Proof.
  cbv zeta.
  destruct (run_tallies env fuel)
    as (m & mr & mc & final & _ & _ & _ & -> & -> & Hle & Hle' & Hraised & _).
  rewrite !length_map, !length_seq. split; [lia|].
  destruct (decide (mc = m)) as [->|Hne]; [left; lia | right; auto].
Qed.

(** X11.  The console shows what the file holds: the [i]-th line printed
    is either the status line of the [i]-th data row, showing that row's
    time, desired position, position, velocity and torque, or the bare
    newline, which is printed only by a run that returns normally. *)
Theorem console_matches_rows (env : Env) (fuel i : nat) (line : Console) :
  printed (w_log (snd (run env fuel))) !! i = Some line ->
  (exists row, tail (csv_lines (snd (run env fuel))) !! i = Some row
               /\ status_of_row row = Some line)
  \/ (line = Newline /\ fst (run env fuel) = Returned tt).
Proof.
  intros Hline.
  destruct (run_tallies env fuel)
    as (m & mr & mc & final & _ & Hpr & Hfinal & Hrows & _ & Hle & _).
  rewrite Hpr in Hline. apply lookup_app_Some in Hline as [Hline | [_ Hline]].
  - left. apply list_lookup_fmap_Some in Hline as (j & -> & Hj).
    apply lookup_seq in Hj as [-> Hlt]. cbn [Nat.add].
    exists (data_row env i). split; [|reflexivity].
    rewrite Hrows. apply list_lookup_fmap_Some. exists i. split; [reflexivity|].
    apply lookup_seq. split; [reflexivity | lia].
  - right. destruct Hfinal as [-> | [-> Hret]].
    + rewrite lookup_nil in Hline. discriminate.
    + split; [|exact Hret].
      destruct (i - length (map (status_of env) (seq 0 m)))%nat as [|k];
        cbn in Hline; [congruence | discriminate].
Qed.

Lemma console_matches_rows_witness :
  printed (w_log (snd (run coarse_env 5))) !! 0%nat = Some (status_of coarse_env 0)
  /\ ((exists row, tail (csv_lines (snd (run coarse_env 5))) !! 0%nat = Some row
                   /\ status_of_row row = Some (status_of coarse_env 0))
      \/ (status_of coarse_env 0 = Newline /\ fst (run coarse_env 5) = Returned tt)).
Proof.
  assert (H : printed (w_log (snd (run coarse_env 5))) !! 0%nat
              = Some (status_of coarse_env 0)) by (vm_compute; reflexivity).
  split; [exact H|].
  exact (console_matches_rows coarse_env 5 0 (status_of coarse_env 0) H).
Defined.

(** X12.  The loop pauses for a hundredth of a second, and for nothing
    else, once after every iteration it completes: the pauses are as many
    as the status lines, and the rows are at most one more. *)
Theorem pacing (env : Env) (fuel : nat) :
  let log := w_log (snd (run env fuel)) in
  exists m : nat,
    slept log = repeat (1 # 100) m
    /\ (m <= length (tail (csv_lines (snd (run env fuel)))) <= S m)%nat
    /\ (length (printed log) = m
        \/ length (printed log) = S m /\ fst (run env fuel) = Returned tt).
Proof.
  cbv zeta.
  destruct (run_tallies env fuel)
    as (m & mr & mc & final & Hsl & Hpr & Hfinal & Hrows & _ & Hle & Hle' & _).
  exists m. split; [exact Hsl|].
  rewrite Hrows, Hpr, length_app, !length_map, !length_seq.
  split; [lia|].
  destruct Hfinal as [-> | [-> Hret]]; cbn [length]; [left; lia | right; split; [lia|exact Hret]].
Qed.

(** ** The staircase *)

Lemma step_index_shift (t : Q) :
  step_index (t + STEP_TIME_S) = (step_index t + 1)%Z.
Proof.
  destruct (step_index_bounds t) as [Flo Fhi].
  apply step_index_unique.
  - rewrite inject_Z_plus, Qmult_plus_distr_l, Qmult_1_l.
    apply Qplus_le_compat; [exact Flo | apply Qle_refl].
  - rewrite (inject_Z_plus (step_index t + 1) 1), Qmult_plus_distr_l, Qmult_1_l.
    apply Qplus_lt_le_compat; [exact Fhi | apply Qle_refl].
Qed.

(** X16.  Sampled faster than the step time, the staircase skips no
    step: when the elapsed time of the next iteration is not earlier and
    less than one step time later, the two commanded positions are the
    quotients by [D] of the same integer or of two consecutive ones. *)
Theorem no_step_skipped (env : Env) (fuel i : nat) (p q : Q) :
  setpoints (snd (run env fuel)) !! i = Some p ->
  setpoints (snd (run env fuel)) !! S i = Some q ->
  sample env i <= sample env (S i) ->
  sample env (S i) < sample env i + STEP_TIME_S ->
  exists k : Z,
    k = Qfloor (sample env i / STEP_TIME_S)
    /\ p = inject_Z k / inject_Z STEP_DIVISIONS
    /\ (q = p /\ Qfloor (sample env (S i) / STEP_TIME_S) = k
        \/ q = inject_Z (k + 1) / inject_Z STEP_DIVISIONS
           /\ Qfloor (sample env (S i) / STEP_TIME_S) = (k + 1)%Z).
Proof.
  intros Hp Hq Hle Hlt.
  apply run_setpoint_lookup in Hp as [-> _].
  apply run_setpoint_lookup in Hq as [-> _].
  pose proof (step_index_mono _ _ Hle) as Hlo.
  pose proof (step_index_mono _ _ (Qlt_le_weak _ _ Hlt)) as Hhi.
  rewrite step_index_shift in Hhi.
  assert (Hcases : step_index (sample env (S i)) = step_index (sample env i)
                   \/ step_index (sample env (S i)) = (step_index (sample env i) + 1)%Z)
    by lia.
  exists (step_index (sample env i)).
  split; [reflexivity|]. split; [reflexivity|].
  unfold desired_position. fold (step_index (sample env (S i))).
  destruct Hcases as [Hc | Hc]; rewrite Hc; [left | right]; split; reflexivity.
Qed.

Lemma no_step_skipped_witness :
  setpoints (snd (run brisk_env 4)) !! 0%nat = Some (0 # 6)
  /\ setpoints (snd (run brisk_env 4)) !! 1%nat = Some (1 # 6)
  /\ sample brisk_env 0 <= sample brisk_env 1
  /\ sample brisk_env 1 < sample brisk_env 0 + STEP_TIME_S
  /\ exists k : Z,
       k = Qfloor (sample brisk_env 0 / STEP_TIME_S)
       /\ 0 # 6 = inject_Z k / inject_Z STEP_DIVISIONS
       /\ (1 # 6 = 0 # 6 /\ Qfloor (sample brisk_env 1 / STEP_TIME_S) = k
           \/ 1 # 6 = inject_Z (k + 1) / inject_Z STEP_DIVISIONS
              /\ Qfloor (sample brisk_env 1 / STEP_TIME_S) = (k + 1)%Z).
Proof.
  assert (H1 : setpoints (snd (run brisk_env 4)) !! 0%nat = Some (0 # 6))
    by (vm_compute; reflexivity).
  assert (H2 : setpoints (snd (run brisk_env 4)) !! 1%nat = Some (1 # 6))
    by (vm_compute; reflexivity).
  assert (H3 : sample brisk_env 0 <= sample brisk_env 1) by (vm_compute; discriminate).
  assert (H4 : sample brisk_env 1 < sample brisk_env 0 + STEP_TIME_S)
    by (vm_compute; reflexivity).
  split; [exact H1|]. split; [exact H2|]. split; [exact H3|]. split; [exact H4|].
  exact (no_step_skipped brisk_env 4 0 (0 # 6) (1 # 6) H1 H2 H3 H4).
Defined.

(** ** The file *)

(** X17.  The header is written once: no line after the first is the
    header again. *)
Theorem header_only_first (env : Env) (fuel i : nat) :
  csv_lines (snd (run env fuel)) !! i = Some header_row -> i = 0%nat.
Proof.
  intros Hi.
  destruct (run_views env fuel) as (mc & mr & _ & _ & _ & _ & Hcsv).
  cbv zeta in Hcsv. destruct Hcsv as [(Hnil & _) | Hcsv].
  - rewrite Hnil, lookup_nil in Hi. discriminate.
  - rewrite Hcsv in Hi. destruct i as [|i]; [reflexivity|].
    cbn in Hi. apply list_lookup_fmap_Some in Hi as (j & Hj & _).
    discriminate.
Qed.

Lemma header_only_first_witness :
  csv_lines (snd (run coarse_env 5)) !! 0%nat = Some header_row /\ 0%nat = 0%nat.
Proof.
  assert (H : csv_lines (snd (run coarse_env 5)) !! 0%nat = Some header_row)
    by (vm_compute; reflexivity).
  split; [exact H|].
  exact (header_only_first coarse_env 5 0 H).
Defined.

Lemma opened_iterations (env : Env) (l : list nat) :
  opened (flat_map (iteration_events env) l) = [].
Proof.
  induction l as [|i l IH]; [reflexivity|].
  cbn [flat_map]. unfold opened in *. rewrite omap_app, IH. reflexivity.
Qed.

(** X18.  The script opens at most one file, for writing, as the first
    thing it does, and the path is the one the command line selected;
    nothing is opened when the command line is rejected or [open] itself
    raises. *)
Theorem opens_once_and_first (env : Env) (fuel : nat) :
  opened (w_log (snd (run env fuel))) = []
  /\ (exists e, fst (run env fuel) = Raised e)
  \/ exists path,
       output_path (env_argv env) = inr path
       /\ opened (w_log (snd (run env fuel))) = [(path, "w")]
       /\ head (w_log (snd (run env fuel))) = Some (EvOpen path "w").
Proof.
  destruct (run_has_shape env fuel)
    as [e He | path j e Hp Hj He | path m o evs Hp Hq Hm Hbefore Hend Hdiv].
  - left. split; [reflexivity | eauto].
  - destruct j as [|[|[|[|j]]]]; try lia.
    + left. split; [reflexivity | eauto].
    + right. exists path. repeat split. exact Hp.
    + right. exists path. repeat split. exact Hp.
    + right. exists path. repeat split. exact Hp.
  - right. exists path. split; [exact Hp|]. split; [|reflexivity].
    unfold opened. rewrite !omap_app.
    fold (opened (flat_map (iteration_events env) (seq 0 m))).
    rewrite opened_iterations.
    inversion Hend; subst; reflexivity.
Qed.

(** ** The closing stop *)

(** X19.  The closing stop is sent only by the iteration that finds the
    elapsed time above [T * (D + 1)]: in a run whose elapsed times stay at
    or below it, however the run ends, with an exception in particular,
    the device receives no command after its last set-position. *)
Theorem no_closing_stop_below_threshold (env : Env) (fuel : nat) :
  (forall i, sample env i <= stop_threshold) ->
  commands (snd (run env fuel)) = []
  \/ commands (snd (run env fuel)) = [SetStop]
  \/ exists n, commands (snd (run env fuel))
               = [SetStop; SetRezero] ++ map (command_of env) (seq 0 n).
Proof.
  intros Hbelow. unfold commands.
  destruct (run_has_shape env fuel)
    as [e He | path j e Hp Hj He | path m o evs Hp Hq Hm Hbefore Hend Hdiv].
  - left. reflexivity.
  - destruct j as [|[|[|[|j]]]]; try lia; cbn; auto.
  - right. right. rewrite !sent_app, sent_iterations.
    change (sent (prelude_events path)) with [SetStop; SetRezero].
    assert (Hnostop : stop_after (sample env m) = false)
      by apply stop_after_false, Hbelow.
    inversion Hend as [Hs | e Hs He | e Hs He | e Hs He | e Hs He | e Hs He |];
      subst; try congruence; cbn [sent omap list_omap].
    + exists m. now rewrite app_nil_r.
    + exists (S m). now rewrite seq_S, map_app.
    + exists (S m). now rewrite seq_S, map_app.
    + exists m. now rewrite app_nil_r.
Qed.

Lemma no_closing_stop_below_threshold_witness :
  (forall i, sample stalled_env i <= stop_threshold)
  /\ (commands (snd (run stalled_env 5)) = []
      \/ commands (snd (run stalled_env 5)) = [SetStop]
      \/ exists n, commands (snd (run stalled_env 5))
                   = [SetStop; SetRezero] ++ map (command_of stalled_env) (seq 0 n)).
Proof.
  assert (H : forall i, sample stalled_env i <= stop_threshold)
    by (intros i; discriminate).
  split; [exact H|].
  exact (no_closing_stop_below_threshold stalled_env 5 H).
Defined.

(** ** The replies of the device *)

Lemma loop_body_same_course (env : Env) (tel : nat -> Telemetry) (start_s : Q)
    (w w' : World) :
  same_course w w' ->
  let r := loop_body (new_DictWriter main_fieldnames) start_s env w in
  let r' := loop_body (new_DictWriter main_fieldnames) start_s
              (with_telemetry env tel) w' in
  fst r = fst r' /\ same_course (snd r) (snd r').
Proof.
  intros (Ht & Ho & Hs & Hsl & Hw). cbv zeta.
  unfold loop_body. run_monad. rewrite <- ?Ht, <- ?Ho.
  destruct (stop_after (env_clock env (w_ticks w) - start_s)).
  - run_monad. rewrite <- ?Ho.
    destruct (env_fault env (w_ops w)); cbn; [split; [reflexivity|same_course_step]|].
    destruct (env_fault env (S (w_ops w))); cbn; split; try reflexivity; same_course_step.
  - run_monad. rewrite <- ?Ho.
    destruct (env_fault env (w_ops w)); cbn; [split; [reflexivity|same_course_step]|].
    unfold writerow. rewrite !dict_to_list_row. run_monad. rewrite <- ?Ho.
    destruct (env_fault env (S (w_ops w))); cbn; [split; [reflexivity|same_course_step]|].
    destruct (env_fault env (S (S (w_ops w)))); cbn; split; try reflexivity; same_course_step.
Qed.

Lemma while_true_same_course (env : Env) (tel : nat -> Telemetry) (start_s : Q)
    (fuel : nat) : forall w w' : World,
  same_course w w' ->
  let r := while_true fuel (loop_body (new_DictWriter main_fieldnames) start_s) env w in
  let r' := while_true fuel (loop_body (new_DictWriter main_fieldnames) start_s)
              (with_telemetry env tel) w' in
  fst r = fst r' /\ same_course (snd r) (snd r').
Proof.
  induction fuel as [|fuel IH]; intros w w' Hsame; cbv zeta.
  - split; [reflexivity | exact Hsame].
  - rewrite !while_true_S.
    pose proof (loop_body_same_course env tel start_s w w' Hsame) as Hbody.
    cbv zeta in Hbody.
    destruct (loop_body (new_DictWriter main_fieldnames) start_s env w)
      as [o1 w1].
    destruct (loop_body (new_DictWriter main_fieldnames) start_s
                (with_telemetry env tel) w') as [o2 w2].
    cbn [fst snd] in Hbody. destruct Hbody as [<- Hsame1].
    destruct o1 as [[|]|e|]; cbn [fst snd]; auto.
Qed.

(** X20.  The script never looks at what the device reports: with any
    other replies to its commands (another position, a fault code, a
    different mode) a run ends the same way, sends the same commands,
    pauses the same and writes as many lines. *)
Theorem telemetry_is_only_logged (env : Env) (tel : nat -> Telemetry) (fuel : nat) :
  fst (run (with_telemetry env tel) fuel) = fst (run env fuel)
  /\ commands (snd (run (with_telemetry env tel) fuel)) = commands (snd (run env fuel))
  /\ slept (w_log (snd (run (with_telemetry env tel) fuel)))
     = slept (w_log (snd (run env fuel)))
  /\ length (csv_lines (snd (run (with_telemetry env tel) fuel)))
     = length (csv_lines (snd (run env fuel))).
Proof.
  assert (H : fst (run env fuel) = fst (run (with_telemetry env tel) fuel)
              /\ same_course (snd (run env fuel)) (snd (run (with_telemetry env tel) fuel))).
  { unfold run, main. cbv zeta. fold main_parser.
    rewrite writeheader_main. unfold parse_args, getattr.
    run_prims. cbn [with_telemetry env_argv env_fault env_clock].
    destruct (consume main_parser (env_argv env) (initial_namespace main_parser) [])
      as [e|ns]; run_prims; [split; [reflexivity|same_course_step]|].
    destruct (ns !! "output") as [path|]; run_prims;
      [|split; [reflexivity|same_course_step]].
    destruct (env_fault env 0); run_prims; [split; [reflexivity|same_course_step]|].
    destruct (env_fault env 1); run_prims; [split; [reflexivity|same_course_step]|].
    destruct (env_fault env 2); run_prims; [split; [reflexivity|same_course_step]|].
    destruct (env_fault env 3); run_prims; [split; [reflexivity|same_course_step]|].
    apply while_true_same_course. same_course_step. }
  destruct H as (Ho & _ & _ & Hs & Hsl & Hw).
  unfold commands, csv_lines. repeat split; congruence.
Qed.
